(** * web_monitor.py: the visit aggregator, the enrichment gateway and the
      dashboard's snapshot, embedded as state-passing functions.

    Timestamps ([time.time()]) are rational numbers of seconds and their
    difference is exact; the clock reading of each [log_visit] call is an
    argument.  The three external
    collaborators ([socket.gethostbyname], [whois.whois], [requests.post])
    are oracles of the environment, and every call to one of them is
    recorded in the world's call history. *)

From Stdlib Require Import QArith Lqa ZArith Ascii String Sorted Permutation.
From stdpp Require Import base option list strings gmap.

Local Open Scope string_scope.

(** ** Exceptions and results *)

(** The exception classes the source distinguishes in its [except] clauses:
    [socket.gaierror], [requests.exceptions.RequestException] (with its
    subclasses: timeouts, connection errors, ...), and every other class
    (all of them instances of [Exception]). *)
Inductive exn : Type :=
| socket_gaierror
| requests_RequestException (kind : string)
| other_exception (name : string).

Inductive result (A : Type) : Type :=
| Ok (a : A)
| Raise (e : exn).
Arguments Ok {A} a.
Arguments Raise {A} e.

Definition is_gaierror (e : exn) : bool :=
  match e with socket_gaierror => true | _ => false end.

Definition is_RequestException (e : exn) : bool :=
  match e with requests_RequestException _ => true | _ => false end.

Definition is_Exception (e : exn) : bool := true.

(** ** CONFIG *)

Definition MIN_INTERVAL : Q := 10.
Definition MONITORED_BY : string := "Timothy Victor Osas".

(** ** Data *)

(** One value of the [visited_sites] dictionary. *)
Record site_data : Type := {
  visits : Z;
  ip : string;
  org : string;
  safety : string;
  first_seen : Q;
  last_seen : Q
}.

(** The [defaultdict] factory. *)
Definition default_site : site_data :=
  {| visits := 0; ip := "N/A"; org := "N/A"; safety := "Not Checked";
     first_seen := 0; last_seen := 0 |}.

(** The value of [w.org] after [w = whois.whois(domain)]. *)
Inductive org_info : Type :=
| org_None
| org_str (s : string)
| org_list (l : list string).

(** A [requests] response: its status code, and what [response.json()]
    gives when called: the entry of the decoded object under ["matches"]
    ([None] when there is none), or the exception it raises. *)
Record response : Type := {
  status_code : Z;
  json_matches : result (option (list string))
}.

(** Calls to the external collaborators. *)
Inductive remote_call : Type :=
| call_gethostbyname (domain : string)
| call_whois (domain : string)
| call_requests_post (url : string) (threat_entry : string).

(** The process state: the module's four dictionaries, the history of
    external calls (oldest first) and the lines written with
    [logging.info]. [visited_sites] keeps the dictionary's insertion
    order, which [sorted] observes. *)
Record world : Type := {
  visited_sites : list (string * site_data);
  ip_cache : gmap string string;
  whois_cache : gmap string string;
  safety_cache : gmap string string;
  remote_calls : list remote_call;
  log_lines : list string
}.

Definition initial_world : world :=
  {| visited_sites := []; ip_cache := ∅; whois_cache := ∅;
     safety_cache := ∅; remote_calls := []; log_lines := [] |}.

Definition with_visited_sites (v : list (string * site_data)) (w : world) : world :=
  {| visited_sites := v; ip_cache := ip_cache w; whois_cache := whois_cache w;
     safety_cache := safety_cache w; remote_calls := remote_calls w;
     log_lines := log_lines w |}.

Definition with_ip_cache (c : gmap string string) (w : world) : world :=
  {| visited_sites := visited_sites w; ip_cache := c; whois_cache := whois_cache w;
     safety_cache := safety_cache w; remote_calls := remote_calls w;
     log_lines := log_lines w |}.

Definition with_whois_cache (c : gmap string string) (w : world) : world :=
  {| visited_sites := visited_sites w; ip_cache := ip_cache w; whois_cache := c;
     safety_cache := safety_cache w; remote_calls := remote_calls w;
     log_lines := log_lines w |}.

Definition with_safety_cache (c : gmap string string) (w : world) : world :=
  {| visited_sites := visited_sites w; ip_cache := ip_cache w;
     whois_cache := whois_cache w; safety_cache := c;
     remote_calls := remote_calls w; log_lines := log_lines w |}.

Definition with_remote_calls (h : list remote_call) (w : world) : world :=
  {| visited_sites := visited_sites w; ip_cache := ip_cache w;
     whois_cache := whois_cache w; safety_cache := safety_cache w;
     remote_calls := h; log_lines := log_lines w |}.

Definition with_log_lines (l : list string) (w : world) : world :=
  {| visited_sites := visited_sites w; ip_cache := ip_cache w;
     whois_cache := whois_cache w; safety_cache := safety_cache w;
     remote_calls := remote_calls w; log_lines := l |}.

(** The environment of the process: the value of
    [os.getenv("GOOGLE_API_KEY")] ([None] when the variable is not set) and
    the answers of the external collaborators, which may depend on the
    calls made before. *)
Record env : Type := {
  GOOGLE_SAFE_BROWSING_API_KEY : option string;
  socket_gethostbyname : list remote_call -> string -> result string;
  whois_whois : list remote_call -> string -> result org_info;
  requests_post : list remote_call -> string -> string -> result response
}.

(** ** The state and exception monad *)

Definition M (A : Type) : Type := world -> result A * world.

Definition ret {A : Type} (a : A) : M A := fun w => (Ok a, w).

Definition bind {A B : Type} (m : M A) (k : A -> M B) : M B := fun w =>
  match m w with
  | (Ok a, w') => k a w'
  | (Raise e, w') => (Raise e, w')
  end.

Notation "x <-- m ;; k" := (bind m (fun x => k))
  (at level 100, m at next level, right associativity).
Notation "m ;;; k" := (bind m (fun _ => k))
  (at level 100, right associativity).

Definition raise {A : Type} (e : exn) : M A := fun w => (Raise e, w).

Definition get_world : M world := fun w => (Ok w, w).

Definition modify (f : world -> world) : M unit := fun w => (Ok tt, f w).

(** [try: body except <class>: handler]; the state changes made by [body]
    before it raised are kept. *)
Definition try_except {A : Type} (body : M A) (catches : exn -> bool) (handler : M A) : M A :=
  fun w =>
    match body w with
    | (Ok a, w') => (Ok a, w')
    | (Raise e, w') => if catches e then handler w' else (Raise e, w')
    end.

Definition lift_result {A : Type} (r : result A) : M A := fun w => (r, w).

(** A call to an external collaborator: it is appended to the history and
    answers from the history before it. *)
Definition call_external {A : Type} (c : remote_call)
    (answer : list remote_call -> result A) : M A := fun w =>
  (answer (remote_calls w), with_remote_calls (remote_calls w ++ [c]) w).

(** ** The [visited_sites] dictionary *)

Fixpoint lookup_site (domain : string) (sites : list (string * site_data)) : option site_data :=
  match sites with
  | [] => None
  | (k, v) :: rest => if String.eqb k domain then Some v else lookup_site domain rest
  end.

(** [sites[domain] = v]: in place for a key that is there, at the end for a
    new one. *)
Fixpoint store_site (domain : string) (v : site_data) (sites : list (string * site_data))
    : list (string * site_data) :=
  match sites with
  | [] => [(domain, v)]
  | (k, v0) :: rest =>
      if String.eqb k domain then (k, v) :: rest
      else (k, v0) :: store_site domain v rest
  end.

(** What [visited_sites[domain]] evaluates to. *)
Definition site_or_default (domain : string) (sites : list (string * site_data)) : site_data :=
  match lookup_site domain sites with
  | Some v => v
  | None => default_site
  end.

(** [data = visited_sites[domain]] on the [defaultdict]: a missing key is
    inserted with the factory's value. *)
Definition visited_sites_getitem (domain : string) : M site_data := fun w =>
  match lookup_site domain (visited_sites w) with
  | Some v => (Ok v, w)
  | None => (Ok default_site,
             with_visited_sites (store_site domain default_site (visited_sites w)) w)
  end.

(** [data] is the dictionary held by [visited_sites] under [domain]: a read
    of [data[...]] reads the store, an assignment to it updates the store. *)
Definition data_read (domain : string) : M site_data := fun w =>
  (Ok (site_or_default domain (visited_sites w)), w).

Definition data_update (domain : string) (f : site_data -> site_data) : M unit :=
  modify (fun w =>
    with_visited_sites
      (store_site domain (f (site_or_default domain (visited_sites w))) (visited_sites w)) w).

Definition set_visits (n : Z) (d : site_data) : site_data :=
  {| visits := n; ip := ip d; org := org d; safety := safety d;
     first_seen := first_seen d; last_seen := last_seen d |}.
Definition set_ip (s : string) (d : site_data) : site_data :=
  {| visits := visits d; ip := s; org := org d; safety := safety d;
     first_seen := first_seen d; last_seen := last_seen d |}.
Definition set_org (s : string) (d : site_data) : site_data :=
  {| visits := visits d; ip := ip d; org := s; safety := safety d;
     first_seen := first_seen d; last_seen := last_seen d |}.
Definition set_safety (s : string) (d : site_data) : site_data :=
  {| visits := visits d; ip := ip d; org := org d; safety := s;
     first_seen := first_seen d; last_seen := last_seen d |}.
Definition set_first_seen (t : Q) (d : site_data) : site_data :=
  {| visits := visits d; ip := ip d; org := org d; safety := safety d;
     first_seen := t; last_seen := last_seen d |}.
Definition set_last_seen (t : Q) (d : site_data) : site_data :=
  {| visits := visits d; ip := ip d; org := org d; safety := safety d;
     first_seen := first_seen d; last_seen := t |}.

(** [x < y] on timestamps. *)
Definition Qltb (x y : Q) : bool :=
  match (x ?= y)%Q with
  | Lt => true
  | _ => false
  end.

(** ** The enrichment gateway *)

Definition UNKNOWN_IP : string := "Unknown IP".
Definition UNKNOWN_ORG : string := "Unknown Org".
Definition WHOIS_ERROR : string := "WHOIS Error".
Definition API_KEY_MISSING : string := "API Key Missing".
Definition SAFE : string := "‚úÖ Safe".
Definition MALICIOUS : string := "‚ö†Ô∏è Malicious".
Definition API_ERROR : string := "‚ùå API Error".

(** The f-string rendering of the key: [None] prints as ["None"]. *)
Definition format_key (k : option string) : string :=
  match k with
  | Some s => s
  | None => "None"
  end.

Definition safe_browsing_url (k : option string) : string :=
  "https://safebrowsing.googleapis.com/v4/threatMatches:find?key=" ++ format_key k.

(** Truth value of [response.json().get("matches")]. *)
Definition matches_truthy (m : option (list string)) : bool :=
  match m with
  | Some (_ :: _) => true
  | _ => false
  end.

Section Gateway.
Variable E : env.

Definition get_ip (domain : string) : M string :=
  w <-- get_world ;;
  match ip_cache w !! domain with
  | Some cached => ret cached
  | None =>
      ip <-- try_except
               (call_external (call_gethostbyname domain)
                  (fun h => socket_gethostbyname E h domain))
               is_gaierror
               (ret UNKNOWN_IP) ;;
      modify (fun w => with_ip_cache (<[domain := ip]> (ip_cache w)) w) ;;;
      ret ip
  end.

(** [org_info[0] if isinstance(org_info, list) else org_info], then
    [if not org: org = "Unknown Org"]. *)
Definition pick_org (info : org_info) : M string :=
  match info with
  | org_None => ret UNKNOWN_ORG
  | org_str s => ret (if String.eqb s "" then UNKNOWN_ORG else s)
  | org_list [] => raise (other_exception "IndexError")
  | org_list (s :: _) => ret (if String.eqb s "" then UNKNOWN_ORG else s)
  end.

Definition get_whois_org (domain : string) : M string :=
  w <-- get_world ;;
  match whois_cache w !! domain with
  | Some cached => ret cached
  | None =>
      org <-- try_except
                (info <-- call_external (call_whois domain)
                            (fun h => whois_whois E h domain) ;;
                 pick_org info)
                is_Exception
                (ret WHOIS_ERROR) ;;
      modify (fun w => with_whois_cache (<[domain := org]> (whois_cache w)) w) ;;;
      ret org
  end.

(** [status_code == 200 and not response.json().get("matches")]:
    [json()] is only called on status 200. *)
Definition verdict (r : response) : M string :=
  if Z.eqb (status_code r) 200 then
    m <-- lift_result (json_matches r) ;;
    ret (if matches_truthy m then MALICIOUS else SAFE)
  else ret MALICIOUS.

Definition check_safety (domain : string) : M string :=
  w <-- get_world ;;
  match safety_cache w !! domain with
  | Some cached => ret cached
  | None =>
      if decide (GOOGLE_SAFE_BROWSING_API_KEY E = Some "YOUR_GOOGLE_API_KEY")
      then ret API_KEY_MISSING
      else
        let url := safe_browsing_url (GOOGLE_SAFE_BROWSING_API_KEY E) in
        safety <-- try_except
                     (r <-- call_external (call_requests_post url ("http://" ++ domain))
                              (fun h => requests_post E h url ("http://" ++ domain)) ;;
                      verdict r)
                     is_RequestException
                     (ret API_ERROR) ;;
        modify (fun w => with_safety_cache (<[domain := safety]> (safety_cache w)) w) ;;;
        ret safety
  end.

(** ** The visit aggregator *)

Definition visit_message (domain : string) (d : site_data) : string :=
  "VISIT | Domain: " ++ domain ++ ", IP: " ++ ip d ++ ", Org: " ++ org d
    ++ ", Safety: " ++ safety d.

Definition logging_info (msg : string) : M unit :=
  modify (fun w => with_log_lines (log_lines w ++ [msg]) w).

(** The body of [if data["visits"] == 1:]. *)
Definition first_visit (now : Q) (domain : string) : M unit :=
  data_update domain (set_first_seen now) ;;;
  a <-- get_ip domain ;;
  data_update domain (set_ip a) ;;;
  o <-- get_whois_org domain ;;
  data_update domain (set_org o) ;;;
  s <-- check_safety domain ;;
  data_update domain (set_safety s).

(** [log_visit(domain)], with [now] the value [time.time()] returned.  The
    [print] lines write to the terminal only and are left out. *)
Definition log_visit (now : Q) (domain : string) : M unit :=
  data <-- visited_sites_getitem domain ;;
  if Qltb (now - last_seen data) MIN_INTERVAL then ret tt
  else
    data_update domain (fun d => set_visits (visits d + 1) d) ;;;
    data_update domain (set_last_seen now) ;;;
    data <-- data_read domain ;;
    (if Z.eqb (visits data) 1 then first_visit now domain else ret tt) ;;;
    data <-- data_read domain ;;
    logging_info (visit_message domain data).

(** A sequence of [log_visit] calls, one after the other, each with its
    clock reading. [process_packet] runs every call in a thread of its
    own, so an exception ends that call only; the state it had reached
    stays. *)
Fixpoint run (events : list (Q * string)) (w : world) : world :=
  match events with
  | [] => w
  | (now, domain) :: rest => run rest (snd (log_visit now domain w))
  end.

(** Whether [log_visit] at [now] passes the debounce test in [w]. *)
Definition accepted (now : Q) (domain : string) (w : world) : bool :=
  negb (Qltb (now - last_seen (site_or_default domain (visited_sites w))) MIN_INTERVAL).

(** Whether some call for [domain] in the sequence passes the test. *)
Fixpoint accepted_in (domain : string) (events : list (Q * string)) (w : world) : bool :=
  match events with
  | [] => false
  | (now, d) :: rest =>
      (String.eqb d domain && accepted now d w)
      || accepted_in domain rest (snd (log_visit now d w))
  end.
End Gateway.

(** ** The dashboard's view: [MonitorDashboard.update_data] *)

Section Sorting.
Context {A K : Type}.
Variable ltb : K -> K -> bool.
Variable key : A -> K.

(** [x] stood before every element of [l] in the input: it goes after
    the elements with a greater key and before those with an equal or a
    smaller one. *)
Fixpoint insert_reverse (x : A) (l : list A) : list A :=
  match l with
  | [] => [x]
  | y :: l' => if ltb (key x) (key y) then y :: insert_reverse x l' else x :: l
  end.

(** [sorted(l, key=key, reverse=True)]: descending and stable (elements
    with equal keys keep the order they have in [l]). *)
Definition sorted_reverse (l : list A) : list A :=
  foldr insert_reverse [] l.

(** No element is followed by one with a greater key. *)
Definition key_ge (a b : A) : Prop := ltb (key a) (key b) = false.

(** The elements whose key is neither smaller nor greater than [k]. *)
Definition same_class (k : K) (a : A) : bool :=
  negb (ltb (key a) k) && negb (ltb k (key a)).
End Sorting.

(** [sub in s]. *)
Fixpoint contains (sub s : string) : bool :=
  String.prefix sub s ||
  match s with
  | EmptyString => false
  | String _ s' => contains sub s'
  end.

Definition item : Type := string * site_data.

(** [sorted(visited_sites.items(), key=lambda item: item[1]['last_seen'],
    reverse=True)]. *)
Definition sorted_sites (sites : list item) : list item :=
  sorted_reverse Qltb (fun it => last_seen (snd it)) sites.

(** The loop over [sorted_sites]: an item is skipped when
    [live_mode and search_term and search_term not in domain.lower()].
    [str_lower] stands for Python's [str.lower]. *)
Definition kept (str_lower : string -> string) (search_term : string)
    (live_mode : bool) (it : item) : bool :=
  negb (live_mode && negb (String.eqb search_term "")
        && negb (contains search_term (str_lower (fst it)))).

Definition filtered_sites (str_lower : string -> string) (search_term : string)
    (live_mode : bool) (sorted : list item) : list item :=
  List.filter (kept str_lower search_term live_mode) sorted.

(** [sorted(filtered_sites, key=lambda item: item[1]['visits'],
    reverse=True)[:10]]. *)
Definition top_sites (filtered : list item) : list item :=
  take 10 (sorted_reverse Z.ltb (fun it => visits (snd it)) filtered).

(** The rows of the table with an empty search box. *)
Definition snapshot (str_lower : string -> string) (w : world) : list item :=
  filtered_sites str_lower "" true (sorted_sites (visited_sites w)).

(** ** Sample environments and data *)

(** No credential in the environment; every lookup answers. *)
Definition env_no_key (status : Z) : env :=
  {| GOOGLE_SAFE_BROWSING_API_KEY := None;
     socket_gethostbyname := fun _ _ => Ok "93.184.216.34";
     whois_whois := fun _ _ => Ok (org_str "Example Org");
     requests_post := fun _ _ _ =>
       Ok {| status_code := status; json_matches := Ok None |} |}.

(** A key is set; the resolver refuses the name before any resolution
    ([UnicodeError] of the [idna] codec for a label longer than 63
    characters). *)
Definition env_bad_label : env :=
  {| GOOGLE_SAFE_BROWSING_API_KEY := Some "k";
     socket_gethostbyname := fun _ _ => Raise (other_exception "UnicodeError");
     whois_whois := fun _ _ => Ok (org_str "Example Org");
     requests_post := fun _ _ _ =>
       Ok {| status_code := 200; json_matches := Ok None |} |}.

Definition long_label_domain : string :=
  "aaaaaaaaaaaaaaaaaaaaaaaaaaaaaaaaaaaaaaaaaaaaaaaaaaaaaaaaaaaaaaaa.com".

Definition site_with (n : Z) (t : Q) : site_data :=
  {| visits := n; ip := "N/A"; org := "N/A"; safety := "Not Checked";
     first_seen := t; last_seen := t |}.

Definition visits_of (domain : string) (w : world) : option Z :=
  visits <$> lookup_site domain (visited_sites w).

(** Three records last seen at 5, 20 and 1, in insertion order. *)
Definition sites_5_20_1 : list item :=
  [("a.com", site_with 1 5); ("b.com", site_with 1 20); ("c.com", site_with 1 1)].

(** Four rows with 3, 7, 1 and 9 visits, and four with two ties. *)
Definition rows_3_7_1_9 : list item :=
  [("a.com", site_with 3 40); ("b.com", site_with 7 30);
   ("c.com", site_with 1 20); ("d.com", site_with 9 10)].

Definition rows_with_ties : list item :=
  [("a.com", site_with 2 40); ("b.com", site_with 5 30);
   ("c.com", site_with 2 20); ("d.com", site_with 5 10)].

Definition recent_first (a b : item) : Prop :=
  (last_seen (snd b) <= last_seen (snd a))%Q.

Definition most_visited_first (a b : item) : Prop :=
  (visits (snd b) <= visits (snd a))%Z.

(** The world after [data = visited_sites[domain]]. *)
Definition touched (domain : string) (w : world) : world :=
  snd (visited_sites_getitem domain w).

(** The world after one accepted visit of ["example.com"] at 100. *)
Definition world_seen_at_100 : world :=
  run (env_no_key 200) [(100%Q, "example.com")] initial_world.

(** Every record has at least one visit. *)
Definition well_visited (sites : list item) : Prop :=
  Forall (fun it => (1 <= visits (snd it))%Z) sites.

Definition at_or_after_interval (ev : Q * string) : Prop :=
  (MIN_INTERVAL <= fst ev)%Q.

(** The three kinds of lookup, and the calls made for a domain. *)
Inductive lookup_kind : Type :=
| address_lookup
| organization_lookup
| reputation_lookup.

Definition is_call (k : lookup_kind) (domain : string) (c : remote_call) : bool :=
  match k, c with
  | address_lookup, call_gethostbyname d => String.eqb d domain
  | organization_lookup, call_whois d => String.eqb d domain
  | reputation_lookup, call_requests_post _ entry => String.eqb entry ("http://" ++ domain)
  | _, _ => false
  end.

Definition call_count (k : lookup_kind) (domain : string) (h : list remote_call) : nat :=
  length (List.filter (is_call k domain) h).

(** The calls one first visit of [domain] may add to the history. *)
Definition few_calls (domain : string) (l : list remote_call) : Prop :=
  forall (k : lookup_kind) (d : string),
    (call_count k d l <= 1)%nat /\ (d <> domain -> call_count k d l = 0%nat).

(** No record has a negative count; no lookup of any kind was made more
    than once for a domain, and none for a domain with no visit yet. *)
Definition calls_bounded (w : world) : Prop :=
  Forall (fun it => (0 <= visits (snd it))%Z) (visited_sites w) /\
  forall (k : lookup_kind) (d : string),
    (call_count k d (remote_calls w) <= 1)%nat /\
    (visits (site_or_default d (visited_sites w)) = 0%Z ->
     call_count k d (remote_calls w) = 0%nat).

(** The enrichment fields of a record. *)
Definition enrichment (v : site_data) : string * string * string :=
  (ip v, org v, safety v).

(** ** Further definitions: packets, the report, counters *)

(** What [process_packet] reads of a packet: [qr] of the DNS layer when
    there is one, and [qname] of the question record when there is one, as
    the text [decode("utf-8", errors="ignore")] gives. *)
Record packet : Type := {
  dns_qr : option Z;
  dnsqr_qname : option string
}.

(** [s.rstrip(".")]. *)
Fixpoint rstrip_dots (s : string) : string :=
  match s with
  | EmptyString => EmptyString
  | String c s' =>
      match rstrip_dots s' with
      | EmptyString => if Ascii.eqb c "." then EmptyString else String c EmptyString
      | r => String c r
      end
  end.

Fixpoint dots (n : nat) : string :=
  match n with
  | O => EmptyString
  | S n' => String "." (dots n')
  end.

(** [process_packet(packet)]: the argument of the [log_visit] thread it
    starts, if it starts one. [registered_domain] stands for
    [tldextract.extract(full_domain).registered_domain]. *)
Definition process_packet (registered_domain : string -> string) (p : packet)
    : option string :=
  match dns_qr p, dnsqr_qname p with
  | Some qr, Some qname =>
      if Z.eqb qr 0 then
        let full_domain := rstrip_dots qname in
        if negb (String.eqb full_domain "") && contains "." full_domain then
          let simple_domain := registered_domain full_domain in
          if negb (String.eqb simple_domain "") then Some simple_domain else None
        else None
      else None
  | _, _ => None
  end.

(** The packets of a capture, each with the clock reading its
    [log_visit] call gets, handled one after the other. *)
Fixpoint run_packets (E : env) (registered_domain : string -> string)
    (packets : list (Q * packet)) (w : world) : world :=
  match packets with
  | [] => w
  | (now, p) :: rest =>
      run_packets E registered_domain rest
        match process_packet registered_domain p with
        | Some domain => snd (log_visit E now domain w)
        | None => w
        end
  end.

(** One row of the report. *)
Record report_row : Type := {
  Domain : string;
  Visits : Z;
  IP_Address : string;
  Founder_Org : string;
  Safety_Status : string;
  First_Seen : string;
  Monitored_By : string
}.

(** [get_data_as_dataframe]: [None] when [visited_sites] is empty, else
    one row per record in the dictionary's order. [strftime] stands for
    [time.strftime("%Y-%m-%d %H:%M:%S", time.localtime(t))]. *)
Definition report_row_of (strftime : Q -> string) (it : item) : report_row :=
  {| Domain := fst it; Visits := visits (snd it); IP_Address := ip (snd it);
     Founder_Org := org (snd it); Safety_Status := safety (snd it);
     First_Seen := strftime (first_seen (snd it));
     Monitored_By := MONITORED_BY |}.

Definition get_data_as_dataframe (strftime : Q -> string) (w : world)
    : option (list report_row) :=
  match visited_sites w with
  | [] => None
  | sites => Some (map (report_row_of strftime) sites)
  end.

(** The number of calls for [domain] in the sequence that pass the
    debounce test. *)
Fixpoint accepted_count (E : env) (domain : string) (events : list (Q * string))
    (w : world) : nat :=
  match events with
  | [] => O
  | (now, d) :: rest =>
      ((if String.eqb d domain && accepted now d w then 1 else 0)
       + accepted_count E domain rest (snd (log_visit E now d w)))%nat
  end.

(** The keys of a dictionary after [dict[d] = ...]: [d] goes to the end
    when it is new. *)
Definition add_key (keys : list string) (d : string) : list string :=
  if existsb (fun k => String.eqb k d) keys then keys else (keys ++ [d])%list.

(** The domains of a sequence of calls, each once, in the order in which
    they first occur. *)
Definition observed_domains (events : list (Q * string)) : list string :=
  fold_left add_key (map snd events) [].

(** A step of the process keeps a relation between the worlds before and
    after it. *)
Definition preserves {A : Type} (R : world -> world -> Prop) (m : M A) : Prop :=
  forall w, R w (snd (m w)).

(** Cache entries are kept: every entry of [w] is an entry of [w']. *)
Definition caches_le (w w' : world) : Prop :=
  ip_cache w ⊆ ip_cache w' /\
  whois_cache w ⊆ whois_cache w' /\
  safety_cache w ⊆ safety_cache w'.

Definition same_log (w w' : world) : Prop := log_lines w' = log_lines w.

Definition seen_in_order (it : item) : Prop :=
  (first_seen (snd it) <= last_seen (snd it))%Q.

(** Further sample data. *)
Definition world_after_get_ip : world :=
  snd (get_ip (env_no_key 200) "example.com" initial_world).

Definition world_after_check_safety : world :=
  snd (check_safety (env_no_key 200) "example.com" initial_world).

(** The registry lookup fails. *)
Definition env_whois_fails : env :=
  {| GOOGLE_SAFE_BROWSING_API_KEY := None;
     socket_gethostbyname := fun _ _ => Ok "93.184.216.34";
     whois_whois := fun _ _ => Raise (other_exception "PywhoisError");
     requests_post := fun _ _ _ =>
       Ok {| status_code := 200; json_matches := Ok None |} |}.

Definition query_packet : packet :=
  {| dns_qr := Some 0%Z; dnsqr_qname := Some "www.example.com." |}.

(** * Properties *)

(** ** Timestamps *)

Lemma Qltb_true (x y : Q) : Qltb x y = true <-> (x < y)%Q.
Proof.
  unfold Qltb. rewrite Qlt_alt.
  destruct (x ?= y)%Q; split; congruence.
Qed.

Lemma Qltb_false (x y : Q) : Qltb x y = false <-> (y <= x)%Q.
Proof.
  split; intros H.
  - apply Qnot_lt_le. intros Hlt. apply Qltb_true in Hlt. congruence.
  - destruct (Qltb x y) eqn:Hb; [|reflexivity].
    apply Qltb_true in Hb. exfalso. exact (Qlt_not_le _ _ Hb H).
Qed.

Lemma Qltb_asym (x y : Q) : Qltb x y = true -> Qltb y x = false.
Proof.
  rewrite Qltb_true, Qltb_false. apply Qlt_le_weak.
Qed.

Lemma Qltb_false_trans (x y z : Q) :
  Qltb x y = false -> Qltb y z = false -> Qltb x z = false.
Proof.
  rewrite !Qltb_false. intros H1 H2. exact (Qle_trans _ _ _ H2 H1).
Qed.

Lemma Zltb_asym (x y : Z) : Z.ltb x y = true -> Z.ltb y x = false.
Proof. lia. Qed.

Lemma Zltb_false_trans (x y z : Z) :
  Z.ltb x y = false -> Z.ltb y z = false -> Z.ltb x z = false.
Proof. lia. Qed.

(** ** The dictionary *)

Lemma lookup_store_eq (d : string) (v : site_data) (s : list item) :
  lookup_site d (store_site d v s) = Some v.
Proof.
  induction s as [|[k v0] s IH]; simpl.
  - now rewrite String.eqb_refl.
  - destruct (String.eqb k d) eqn:Hk; simpl; now rewrite Hk.
Qed.

Lemma lookup_store_ne (d d' : string) (v : site_data) (s : list item) :
  d <> d' -> lookup_site d' (store_site d v s) = lookup_site d' s.
Proof.
  intros Hne. induction s as [|[k v0] s IH]; simpl.
  - destruct (String.eqb d d') eqn:Hd; [|reflexivity].
    apply String.eqb_eq in Hd. contradiction.
  - destruct (String.eqb k d) eqn:Hk; simpl.
    + apply String.eqb_eq in Hk. subst k.
      destruct (String.eqb d d') eqn:Hd; [|reflexivity].
      apply String.eqb_eq in Hd. contradiction.
    + now rewrite IH.
Qed.

Lemma store_site_id (d : string) (v : site_data) (s : list item) :
  lookup_site d s = Some v -> store_site d v s = s.
Proof.
  induction s as [|[k v0] s IH]; simpl; [discriminate|].
  destruct (String.eqb k d) eqn:Hk.
  - intros [= ->]. reflexivity.
  - intros H. now rewrite IH.
Qed.

Lemma store_store (d : string) (v1 v2 : site_data) (s : list item) :
  store_site d v2 (store_site d v1 s) = store_site d v2 s.
Proof.
  induction s as [|[k v0] s IH]; simpl.
  - now rewrite String.eqb_refl.
  - destruct (String.eqb k d) eqn:Hk; simpl; rewrite Hk; [reflexivity|].
    now rewrite IH.
Qed.

Lemma site_or_default_store (d : string) (v : site_data) (s : list item) :
  site_or_default d (store_site d v s) = v.
Proof. unfold site_or_default. now rewrite lookup_store_eq. Qed.

Lemma site_or_default_store_ne (d d' : string) (v : site_data) (s : list item) :
  d <> d' -> site_or_default d' (store_site d v s) = site_or_default d' s.
Proof. intros H. unfold site_or_default. now rewrite lookup_store_ne. Qed.

Lemma store_site_default_id (d : string) (s : list item) :
  is_Some (lookup_site d s) -> store_site d (site_or_default d s) s = s.
Proof.
  intros [v Hv]. unfold site_or_default. rewrite Hv. now apply store_site_id.
Qed.

(** ** [sorted(..., reverse=True)] *)

Section SortingFacts.
Context {A K : Type}.
Variable ltb : K -> K -> bool.
Variable key : A -> K.
Hypothesis ltb_asym : forall x y, ltb x y = true -> ltb y x = false.
Hypothesis ltb_false_trans :
  forall x y z, ltb x y = false -> ltb y z = false -> ltb x z = false.

Lemma insert_reverse_perm (x : A) (l : list A) :
  Permutation (insert_reverse ltb key x l) (x :: l).
Proof.
  induction l as [|y l IH]; simpl; [reflexivity|].
  destruct (ltb (key x) (key y)); [|reflexivity].
  rewrite IH. apply perm_swap.
Qed.

Lemma sorted_reverse_perm (l : list A) :
  Permutation (sorted_reverse ltb key l) l.
Proof.
  induction l as [|x l IH]; simpl; [reflexivity|].
  rewrite insert_reverse_perm. now constructor.
Qed.

Lemma insert_reverse_sorted (x : A) (l : list A) :
  StronglySorted (key_ge ltb key) l ->
  StronglySorted (key_ge ltb key) (insert_reverse ltb key x l).
Proof.
  induction 1 as [|y l Hs IH Hy]; simpl.
  - repeat constructor.
  - destruct (ltb (key x) (key y)) eqn:Hxy.
    + constructor; [exact IH|].
      rewrite insert_reverse_perm. constructor; [|exact Hy].
      apply ltb_asym. exact Hxy.
    + constructor; [now constructor|].
      constructor; [exact Hxy|].
      eapply Forall_impl; [exact Hy|].
      intros z Hz. unfold key_ge in *. eapply ltb_false_trans; eassumption.
Qed.

Lemma sorted_reverse_sorted (l : list A) :
  StronglySorted (key_ge ltb key) (sorted_reverse ltb key l).
Proof.
  induction l as [|x l IH]; simpl; [constructor|].
  now apply insert_reverse_sorted.
Qed.

(** Stability: the elements of one key class come out in the order they
    went in. *)
Lemma insert_reverse_filter (p : A -> bool) (x : A) (l : list A) :
  (forall a b, p a = true -> p b = true -> ltb (key a) (key b) = false) ->
  List.filter p (insert_reverse ltb key x l) = List.filter p (x :: l).
Proof.
  intros Hp. induction l as [|y l IH]; [reflexivity|].
  simpl insert_reverse. destruct (ltb (key x) (key y)) eqn:Hxy; [|reflexivity].
  simpl in *. rewrite IH.
  destruct (p x) eqn:Hx, (p y) eqn:Hy; try reflexivity.
  rewrite (Hp x y Hx Hy) in Hxy. discriminate.
Qed.

Lemma sorted_reverse_stable (p : A -> bool) (l : list A) :
  (forall a b, p a = true -> p b = true -> ltb (key a) (key b) = false) ->
  List.filter p (sorted_reverse ltb key l) = List.filter p l.
Proof.
  intros Hp. induction l as [|x l IH]; [reflexivity|].
  simpl sorted_reverse. rewrite insert_reverse_filter by exact Hp.
  simpl. now rewrite IH.
Qed.
Lemma ltb_irrefl (x : K) : ltb x x = false.
Proof.
  destruct (ltb x x) eqn:H; [|reflexivity].
  now rewrite (ltb_asym x x H) in H.
Qed.

Lemma same_class_not_lt (k : K) (a b : A) :
  same_class ltb key k a = true -> same_class ltb key k b = true ->
  ltb (key a) (key b) = false.
Proof.
  unfold same_class. rewrite !andb_true_iff, !negb_true_iff.
  intros [Ha _] [_ Hb]. eapply ltb_false_trans; eassumption.
Qed.

Lemma head_not_lt (x y : A) (t : list A) :
  Forall (key_ge ltb key x) t -> In y (x :: t) -> ltb (key x) (key y) = false.
Proof.
  intros Hx [<-|Hy]; [apply ltb_irrefl|].
  rewrite List.Forall_forall in Hx. exact (Hx y Hy).
Qed.

(** Two descending lists with the same elements, in which the elements
    of every key class come in the same order, are equal. *)
Lemma stable_descending_unique (l1 l2 : list A) :
  Permutation l1 l2 ->
  StronglySorted (key_ge ltb key) l1 ->
  StronglySorted (key_ge ltb key) l2 ->
  (forall k, List.filter (same_class ltb key k) l1
             = List.filter (same_class ltb key k) l2) ->
  l1 = l2.
Proof.
  revert l2. induction l1 as [|x t1 IH]; intros l2 Hp H1 H2 Hf.
  - apply Permutation_length in Hp. destruct l2; [reflexivity|discriminate].
  - destruct l2 as [|y t2]; [apply Permutation_length in Hp; discriminate|].
    apply StronglySorted_inv in H1. destruct H1 as [H1 Hx].
    apply StronglySorted_inv in H2. destruct H2 as [H2 Hy].
    assert (Hxy : ltb (key x) (key y) = false).
    { apply (head_not_lt x y t1 Hx).
      eapply Permutation_in; [symmetry; exact Hp|now left]. }
    assert (Hyx : ltb (key y) (key x) = false).
    { apply (head_not_lt y x t2 Hy).
      eapply Permutation_in; [exact Hp|now left]. }
    assert (Heq : x = y).
    { assert (Cx : same_class ltb key (key x) x = true)
        by (unfold same_class; now rewrite ltb_irrefl).
      assert (Cy : same_class ltb key (key x) y = true)
        by (unfold same_class; now rewrite Hxy, Hyx).
      specialize (Hf (key x)). cbn [List.filter] in Hf.
      rewrite Cx, Cy in Hf. congruence. }
    subst y. f_equal. apply IH; try assumption.
    + eapply Permutation_cons_inv. exact Hp.
    + intros k. specialize (Hf k). cbn [List.filter] in Hf.
      destruct (same_class ltb key k x); congruence.
Qed.

(** [sorted_reverse] is the stable descending sort: any descending
    rearrangement of [l] that keeps the order within each key class is
    [sorted_reverse l]. *)
Lemma sorted_reverse_unique (l l' : list A) :
  Permutation l' l ->
  StronglySorted (key_ge ltb key) l' ->
  (forall k, List.filter (same_class ltb key k) l'
             = List.filter (same_class ltb key k) l) ->
  l' = sorted_reverse ltb key l.
Proof.
  intros Hp Hs Hf. apply stable_descending_unique.
  - rewrite Hp. symmetry. apply sorted_reverse_perm.
  - exact Hs.
  - apply sorted_reverse_sorted.
  - intros k. rewrite Hf. symmetry. apply sorted_reverse_stable.
    intros a b. apply same_class_not_lt.
Qed.
End SortingFacts.

Lemma StronglySorted_impl {A : Type} (R S : A -> A -> Prop) (l : list A) :
  (forall a b, R a b -> S a b) -> StronglySorted R l -> StronglySorted S l.
Proof.
  intros HRS. induction 1 as [|x l Hl IH Hx]; constructor; [exact IH|].
  eapply Forall_impl; [exact Hx|]. intros b. apply HRS.
Qed.

Lemma StronglySorted_filter {A : Type} (R : A -> A -> Prop) (p : A -> bool) (l : list A) :
  StronglySorted R l -> StronglySorted R (List.filter p l).
Proof.
  induction 1 as [|x l Hl IH Hx]; simpl; [constructor|].
  destruct (p x); [|exact IH].
  constructor; [exact IH|].
  rewrite List.Forall_forall in *. intros y Hy.
  apply List.filter_In in Hy. apply Hx. tauto.
Qed.

Lemma StronglySorted_take {A : Type} (R : A -> A -> Prop) (n : nat) (l : list A) :
  StronglySorted R l -> StronglySorted R (take n l).
Proof.
  intros H. revert n. induction H as [|x l Hl IH Hx]; intros [|n]; simpl;
    try constructor; [apply IH|].
  now apply Forall_take.
Qed.

Lemma sorted_sites_recent_first (sites : list item) :
  StronglySorted recent_first (sorted_sites sites).
Proof.
  eapply StronglySorted_impl;
    [|apply (sorted_reverse_sorted Qltb _ Qltb_asym Qltb_false_trans)].
  intros a b H. unfold key_ge in H. now apply Qltb_false in H.
Qed.

(** X19: for every search term and live-filter setting the rows shown are
    ordered most recently seen first. *)
Lemma filtered_sites_recent_first (str_lower : string -> string) (term : string)
    (live : bool) (sites : list item) :
  StronglySorted recent_first
    (filtered_sites str_lower term live (sorted_sites sites)).
Proof. apply StronglySorted_filter, sorted_sites_recent_first. Qed.

Lemma filtered_sites_no_term (str_lower : string -> string) (live : bool)
    (l : list item) :
  filtered_sites str_lower "" live l = l.
Proof.
  unfold filtered_sites. induction l as [|x l IH]; simpl; [reflexivity|].
  unfold kept at 1. simpl. rewrite andb_false_r. simpl. now rewrite IH.
Qed.

Lemma snapshot_sorted_sites (str_lower : string -> string) (w : world) :
  snapshot str_lower w = sorted_sites (visited_sites w).
Proof. apply filtered_sites_no_term. Qed.

(** C5: for every aggregate state the snapshot holds exactly the state's
    records, most recently seen first (no record is followed by one with a
    greater [last_seen]), records seen at the same time keeping their
    insertion order; records last seen at 5, 20 and 1 come out in the order
    20, 5, 1. *)
Theorem snapshot_most_recent_first (str_lower : string -> string) :
  (forall w : world,
     Permutation (snapshot str_lower w) (visited_sites w) /\
     StronglySorted recent_first (snapshot str_lower w) /\
     (forall t : Q,
        List.filter (fun it => Qeq_bool (last_seen (snd it)) t) (snapshot str_lower w)
        = List.filter (fun it => Qeq_bool (last_seen (snd it)) t) (visited_sites w))) /\
  map (fun it => last_seen (snd it))
      (snapshot str_lower (with_visited_sites sites_5_20_1 initial_world))
  = [20%Q; 5%Q; 1%Q].
Proof.
  split; [|reflexivity].
  intros w. rewrite snapshot_sorted_sites. split; [|split].
  - apply sorted_reverse_perm.
  - apply sorted_sites_recent_first.
  - intros t. apply sorted_reverse_stable.
    intros a b Ha Hb. apply Qeq_bool_iff in Ha, Hb.
    apply Qltb_false. rewrite Ha, Hb. apply Qle_refl.
Qed.

Lemma sorted_by_visits (l : list item) :
  StronglySorted most_visited_first
    (sorted_reverse Z.ltb (fun it => visits (snd it)) l).
Proof.
  eapply StronglySorted_impl;
    [|apply (sorted_reverse_sorted Z.ltb _ Zltb_asym Zltb_false_trans)].
  intros a b H. unfold key_ge in H. unfold most_visited_first. lia.
Qed.

(** C6, the claim as stated fails: the chart's list has no parameter [n];
    over visit counts 3, 7, 1, 9 it keeps all four rows, not the two
    highest. *)
Lemma top_sites_not_top_two :
  map (fun it => visits (snd it)) (top_sites rows_3_7_1_9) <> [9%Z; 7%Z].
Proof. vm_compute. discriminate. Qed.

(** C6, amended: for every list of rows, [top_sites] is the first ten rows
    (all of them when there are fewer) of the rows sorted by descending
    visit count, rows with equal counts keeping the order they have in the
    input; its first [n] rows are the [n] most visited for every [n] up to
    ten.  Over visit counts 3, 7, 1, 9 it gives 9, 7, 3, 1, of which the
    first two are 9, 7. *)
Theorem top_sites_ten_most_visited :
  (forall rows : list item,
     let by_visits := sorted_reverse Z.ltb (fun it => visits (snd it)) rows in
     Permutation by_visits rows /\
     StronglySorted most_visited_first by_visits /\
     (forall n : Z,
        List.filter (fun it => Z.eqb (visits (snd it)) n) by_visits
        = List.filter (fun it => Z.eqb (visits (snd it)) n) rows) /\
     top_sites rows = take 10 by_visits /\
     length (top_sites rows) = Nat.min 10 (length rows) /\
     StronglySorted most_visited_first (top_sites rows) /\
     (forall n : nat, take n (top_sites rows) = take (Nat.min n 10) by_visits)) /\
  map (fun it => visits (snd it)) (top_sites rows_3_7_1_9) = [9%Z; 7%Z; 3%Z; 1%Z] /\
  map (fun it => visits (snd it)) (take 2 (top_sites rows_3_7_1_9)) = [9%Z; 7%Z] /\
  map fst (top_sites rows_with_ties) = ["b.com"; "d.com"; "a.com"; "c.com"].
Proof.
  split; [|split; [|split]; reflexivity].
  intros rows by_visits. subst by_visits.
  split; [apply sorted_reverse_perm|].
  split; [apply sorted_by_visits|].
  split.
  { intros n. apply sorted_reverse_stable. intros a b Ha Hb. lia. }
  split; [reflexivity|].
  split.
  { unfold top_sites. rewrite length_take.
    rewrite (Permutation_length (sorted_reverse_perm Z.ltb _ rows)). lia. }
  split.
  - apply StronglySorted_take, sorted_by_visits.
  - intros n. unfold top_sites. apply take_take.
Qed.

(** ** The enrichment gateway *)

Ltac run_monad :=
  unfold bind, ret, raise, get_world, modify, try_except, lift_result,
    call_external; simpl.

Section GatewayFacts.
Variable E : env.

(** *** [get_ip] *)

Lemma get_ip_cached (d cached : string) (w : world) :
  ip_cache w !! d = Some cached ->
  get_ip E d w = (Ok cached, w).
Proof. intros H. unfold get_ip. run_monad. now rewrite H. Qed.

Lemma get_ip_resolved (d a : string) (w : world) :
  ip_cache w !! d = None ->
  socket_gethostbyname E (remote_calls w) d = Ok a ->
  get_ip E d w
  = (Ok a, with_ip_cache (<[d := a]> (ip_cache w))
             (with_remote_calls (remote_calls w ++ [call_gethostbyname d]) w)).
Proof. intros Hc Hr. unfold get_ip. run_monad. now rewrite Hc, Hr. Qed.

Lemma get_ip_gaierror (d : string) (w : world) :
  ip_cache w !! d = None ->
  socket_gethostbyname E (remote_calls w) d = Raise socket_gaierror ->
  get_ip E d w
  = (Ok UNKNOWN_IP, with_ip_cache (<[d := UNKNOWN_IP]> (ip_cache w))
                      (with_remote_calls (remote_calls w ++ [call_gethostbyname d]) w)).
Proof. intros Hc Hr. unfold get_ip. run_monad. now rewrite Hc, Hr. Qed.

(** After a call that returned, the next call answers from the cache and
    leaves the world as it is. *)
Lemma get_ip_twice (d a : string) (w w' : world) :
  get_ip E d w = (Ok a, w') -> get_ip E d w' = (Ok a, w').
Proof.
  unfold get_ip. run_monad.
  destruct (ip_cache w !! d) as [c|] eqn:Hc.
  - intros [= <- <-]. now rewrite Hc.
  - destruct (socket_gethostbyname E (remote_calls w) d) as [a'|e]; simpl.
    + intros [= <- <-]. simpl. now rewrite lookup_insert_eq.
    + destruct (is_gaierror e); simpl; [|discriminate].
      intros [= <- <-]. simpl. now rewrite lookup_insert_eq.
Qed.

(** C4, on the code: an exception of the resolver that is not a
    [socket.gaierror] is not caught: [get_ip] raises it, and nothing is
    cached for the domain. *)
Theorem get_ip_raises_other_exception (d name : string) (w : world) :
  ip_cache w !! d = None ->
  socket_gethostbyname E (remote_calls w) d = Raise (other_exception name) ->
  fst (get_ip E d w) = Raise (other_exception name) /\
  ip_cache (snd (get_ip E d w)) !! d = None.
Proof.
  intros Hc Hr. unfold get_ip. run_monad. rewrite Hc, Hr. simpl. now split.
Qed.

(** *** [check_safety] *)

Lemma check_safety_cached (d cached : string) (w : world) :
  safety_cache w !! d = Some cached ->
  check_safety E d w = (Ok cached, w).
Proof. intros H. unfold check_safety. run_monad. now rewrite H. Qed.

(** The sentinel is returned, with no call, when the variable holds the
    placeholder text. *)
Lemma check_safety_placeholder_key (d : string) (w : world) :
  GOOGLE_SAFE_BROWSING_API_KEY E = Some "YOUR_GOOGLE_API_KEY" ->
  safety_cache w !! d = None ->
  check_safety E d w = (Ok API_KEY_MISSING, w).
Proof.
  intros Hk Hc. unfold check_safety. run_monad. rewrite Hc.
  destruct (decide _) as [_|Hn]; [reflexivity|contradiction].
Qed.

(** What [check_safety] does once it goes to the network. *)
Lemma check_safety_posts (d : string) (w : world) :
  GOOGLE_SAFE_BROWSING_API_KEY E <> Some "YOUR_GOOGLE_API_KEY" ->
  safety_cache w !! d = None ->
  let url := safe_browsing_url (GOOGLE_SAFE_BROWSING_API_KEY E) in
  let w1 := with_remote_calls
              (remote_calls w ++ [call_requests_post url ("http://" ++ d)]) w in
  let cache s := with_safety_cache (<[d := s]> (safety_cache w)) w1 in
  check_safety E d w =
  match requests_post E (remote_calls w) url ("http://" ++ d) with
  | Ok r =>
      if Z.eqb (status_code r) 200 then
        match json_matches r with
        | Ok m => let s := if matches_truthy m then MALICIOUS else SAFE in
                  (Ok s, cache s)
        | Raise e => if is_RequestException e then (Ok API_ERROR, cache API_ERROR)
                     else (Raise e, w1)
        end
      else (Ok MALICIOUS, cache MALICIOUS)
  | Raise e => if is_RequestException e then (Ok API_ERROR, cache API_ERROR)
               else (Raise e, w1)
  end.
Proof.
  intros Hk Hc. unfold check_safety, verdict. run_monad. rewrite Hc.
  destruct (decide _) as [Hk'|_]; [contradiction|].
  destruct (requests_post E _ _ _) as [r|e]; simpl.
  - destruct (Z.eqb (status_code r) 200); simpl; [|reflexivity].
    destruct (json_matches r) as [m|e]; simpl; [reflexivity|].
    now destruct (is_RequestException e).
  - now destruct (is_RequestException e).
Qed.

(** C2, on the code: with no credential in the environment
    ([os.getenv] gave [None]) and the domain not cached, [check_safety]
    posts one request to the reputation endpoint and does not return
    the sentinel ["API Key Missing"]. *)
Theorem check_safety_without_key_calls (d : string) (w : world) :
  GOOGLE_SAFE_BROWSING_API_KEY E = None ->
  safety_cache w !! d = None ->
  fst (check_safety E d w) <> Ok API_KEY_MISSING /\
  remote_calls (snd (check_safety E d w))
  = (remote_calls w ++ [call_requests_post (safe_browsing_url None) ("http://" ++ d)])%list.
Proof.
  intros Hk Hc.
  assert (Hne : GOOGLE_SAFE_BROWSING_API_KEY E <> Some "YOUR_GOOGLE_API_KEY")
    by (rewrite Hk; discriminate).
  rewrite (check_safety_posts d w Hne Hc). rewrite Hk.
  destruct (requests_post E _ _ _) as [r|e].
  - destruct (Z.eqb (status_code r) 200).
    + destruct (json_matches r) as [m|e].
      * destruct (matches_truthy m); simpl; (split; [discriminate|reflexivity]).
      * destruct (is_RequestException e); simpl; (split; [discriminate|reflexivity]).
    + simpl. split; [discriminate|reflexivity].
  - destruct (is_RequestException e); simpl; (split; [discriminate|reflexivity]).
Qed.

(** C3, on the code: a response that is not an HTTP 200 gives the
    flagged verdict, which is cached for the domain. *)
Theorem check_safety_non_success_flagged (d : string) (r : response) (w : world) :
  GOOGLE_SAFE_BROWSING_API_KEY E <> Some "YOUR_GOOGLE_API_KEY" ->
  safety_cache w !! d = None ->
  requests_post E (remote_calls w)
    (safe_browsing_url (GOOGLE_SAFE_BROWSING_API_KEY E)) ("http://" ++ d) = Ok r ->
  status_code r <> 200%Z ->
  fst (check_safety E d w) = Ok MALICIOUS /\
  safety_cache (snd (check_safety E d w)) !! d = Some MALICIOUS.
Proof.
  intros Hk Hc Hr Hs. rewrite (check_safety_posts d w Hk Hc), Hr.
  apply Z.eqb_neq in Hs. rewrite Hs. simpl. split; [reflexivity|].
  apply lookup_insert_eq.
Qed.

(** X5: when the call went to the network and a response came back, the
    verdict is Safe exactly when the status is 200 and the decoded body
    has no (or an empty) ["matches"] entry. *)
Lemma check_safety_safe_iff (d : string) (r : response) (w : world) :
  GOOGLE_SAFE_BROWSING_API_KEY E <> Some "YOUR_GOOGLE_API_KEY" ->
  safety_cache w !! d = None ->
  requests_post E (remote_calls w)
    (safe_browsing_url (GOOGLE_SAFE_BROWSING_API_KEY E)) ("http://" ++ d) = Ok r ->
  fst (check_safety E d w) = Ok SAFE <->
  status_code r = 200%Z /\
  exists m, json_matches r = Ok m /\ matches_truthy m = false.
Proof.
  intros Hk Hc Hr. rewrite (check_safety_posts d w Hk Hc), Hr.
  destruct (Z.eqb (status_code r) 200) eqn:Hs.
  - apply Z.eqb_eq in Hs. destruct (json_matches r) as [m|e].
    + destruct (matches_truthy m) eqn:Hm; simpl; split.
      * discriminate.
      * intros [_ [m' [[= <-] Hm']]]. congruence.
      * intros _. eauto.
      * reflexivity.
    + destruct (is_RequestException e); simpl; split;
        try discriminate; intros [_ [m [? _]]]; discriminate.
  - apply Z.eqb_neq in Hs. simpl. split; [discriminate|]. intros [? _]. contradiction.
Qed.

Lemma check_safety_transport_error (d kind : string) (w : world) :
  GOOGLE_SAFE_BROWSING_API_KEY E <> Some "YOUR_GOOGLE_API_KEY" ->
  safety_cache w !! d = None ->
  requests_post E (remote_calls w)
    (safe_browsing_url (GOOGLE_SAFE_BROWSING_API_KEY E)) ("http://" ++ d)
  = Raise (requests_RequestException kind) ->
  fst (check_safety E d w) = Ok API_ERROR.
Proof.
  intros Hk Hc Hr. now rewrite (check_safety_posts d w Hk Hc), Hr.
Qed.
End GatewayFacts.

(** C4 at [get_ip("aaaa...a.com")] (a label of 64 characters), the cache
    empty. *)
Lemma get_ip_raises_other_exception_witness :
  fst (get_ip env_bad_label long_label_domain initial_world)
  = Raise (other_exception "UnicodeError") /\
  ip_cache (snd (get_ip env_bad_label long_label_domain initial_world))
    !! long_label_domain = None.
Proof.
  apply (get_ip_raises_other_exception env_bad_label long_label_domain
           "UnicodeError" initial_world); reflexivity.
Defined.

(** C2 at ["example.com"], the variable unset and the cache empty. *)
Lemma check_safety_without_key_calls_witness :
  fst (check_safety (env_no_key 200) "example.com" initial_world) <> Ok API_KEY_MISSING /\
  remote_calls (snd (check_safety (env_no_key 200) "example.com" initial_world))
  = [call_requests_post (safe_browsing_url None) "http://example.com"].
Proof.
  apply (check_safety_without_key_calls (env_no_key 200) "example.com" initial_world);
    reflexivity.
Defined.

(** C3 at ["example.com"], the endpoint answering 403. *)
Lemma check_safety_non_success_flagged_witness :
  fst (check_safety (env_no_key 403) "example.com" initial_world) = Ok MALICIOUS /\
  safety_cache (snd (check_safety (env_no_key 403) "example.com" initial_world))
    !! "example.com" = Some MALICIOUS.
Proof.
  apply (check_safety_non_success_flagged (env_no_key 403) "example.com"
           {| status_code := 403; json_matches := Ok None |} initial_world);
    [discriminate | reflexivity | reflexivity | discriminate].
Defined.

(** ** The visit aggregator *)

Section AggregatorFacts.
Variable E : env.

Lemma get_ip_sites (d : string) (w : world) :
  visited_sites (snd (get_ip E d w)) = visited_sites w.
Proof.
  unfold get_ip. run_monad.
  destruct (ip_cache w !! d); [reflexivity|].
  destruct (socket_gethostbyname E _ d) as [a|e]; simpl; [reflexivity|].
  now destruct (is_gaierror e).
Qed.

Lemma get_whois_org_sites (d : string) (w : world) :
  visited_sites (snd (get_whois_org E d w)) = visited_sites w.
Proof.
  unfold get_whois_org, pick_org. run_monad.
  destruct (whois_cache w !! d); [reflexivity|].
  destruct (whois_whois E _ d) as [[|s|[|s l]]|e]; reflexivity.
Qed.

Lemma get_whois_org_returns (d : string) (w : world) :
  exists o, fst (get_whois_org E d w) = Ok o.
Proof.
  unfold get_whois_org, pick_org. run_monad.
  destruct (whois_cache w !! d); [eauto|].
  destruct (whois_whois E _ d) as [[|s|[|s l]]|e]; simpl; eauto.
Qed.

Lemma check_safety_sites (d : string) (w : world) :
  visited_sites (snd (check_safety E d w)) = visited_sites w.
Proof.
  unfold check_safety, verdict. run_monad.
  destruct (safety_cache w !! d); [reflexivity|].
  destruct (decide _); [reflexivity|].
  destruct (requests_post E _ _ _) as [r|e]; simpl.
  - destruct (Z.eqb (status_code r) 200); simpl; [|reflexivity].
    destruct (json_matches r) as [m|e]; simpl; [reflexivity|].
    now destruct (is_RequestException e).
  - now destruct (is_RequestException e).
Qed.

Lemma data_update_sites (d : string) (f : site_data -> site_data)
    (v : site_data) (s : list item) (w : world) :
  visited_sites w = store_site d v s ->
  fst (data_update d f w) = Ok tt /\
  visited_sites (snd (data_update d f w)) = store_site d (f v) s.
Proof.
  intros H. unfold data_update, modify. simpl. split; [reflexivity|].
  now rewrite H, site_or_default_store, store_store.
Qed.

Lemma touched_sites (d : string) (w : world) :
  visited_sites (touched d w)
  = store_site d (site_or_default d (visited_sites w)) (visited_sites w).
Proof.
  unfold touched, visited_sites_getitem, site_or_default.
  destruct (lookup_site d (visited_sites w)) as [v|] eqn:H; simpl.
  - symmetry. now apply store_site_id.
  - reflexivity.
Qed.

Lemma touched_present (d : string) (v : site_data) (w : world) :
  lookup_site d (visited_sites w) = Some v -> touched d w = w.
Proof.
  intros H. unfold touched, visited_sites_getitem. now rewrite H.
Qed.

Lemma getitem_touched (d : string) (w : world) :
  visited_sites_getitem d w
  = (Ok (site_or_default d (visited_sites w)), touched d w).
Proof.
  unfold touched, visited_sites_getitem, site_or_default.
  now destruct (lookup_site d (visited_sites w)).
Qed.

(** The first-visit block changes the record of [domain] only, and not
    its counters. *)
Lemma first_visit_sites (now : Q) (d : string) (v : site_data)
    (s : list item) (w : world) :
  visited_sites w = store_site d v s ->
  exists v', visited_sites (snd (first_visit E now d w)) = store_site d v' s /\
             visits v' = visits v /\ last_seen v' = last_seen v.
Proof.
  intros H0. unfold first_visit. unfold bind at 1.
  destruct (data_update_sites d (set_first_seen now) v s w H0) as [Hr1 H1].
  destruct (data_update d (set_first_seen now) w) as [r1 w1].
  simpl in Hr1, H1. subst r1. unfold bind at 1.
  pose proof (get_ip_sites d w1) as H2.
  destruct (get_ip E d w1) as [[a|e] w2]; simpl in H2; rewrite H1 in H2;
    [|simpl; eauto].
  unfold bind at 1.
  destruct (data_update_sites d (set_ip a) _ s w2 H2) as [Hr3 H3].
  destruct (data_update d (set_ip a) w2) as [r3 w3].
  simpl in Hr3, H3. subst r3. unfold bind at 1.
  pose proof (get_whois_org_sites d w3) as H4.
  destruct (get_whois_org E d w3) as [[o|e] w4]; simpl in H4; rewrite H3 in H4;
    [|simpl; eauto].
  unfold bind at 1.
  destruct (data_update_sites d (set_org o) _ s w4 H4) as [Hr5 H5].
  destruct (data_update d (set_org o) w4) as [r5 w5].
  simpl in Hr5, H5. subst r5. unfold bind at 1.
  pose proof (check_safety_sites d w5) as H6.
  destruct (check_safety E d w5) as [[c|e] w6]; simpl in H6; rewrite H5 in H6;
    [|simpl; eauto].
  destruct (data_update_sites d (set_safety c) _ s w6 H6) as [_ H7].
  eauto.
Qed.

Lemma accepted_false (now : Q) (d : string) (w : world) :
  accepted now d w = false <->
  (now - last_seen (site_or_default d (visited_sites w)) < MIN_INTERVAL)%Q.
Proof.
  unfold accepted. rewrite negb_false_iff. apply Qltb_true.
Qed.

Lemma accepted_true (now : Q) (d : string) (w : world) :
  accepted now d w = true <->
  (MIN_INTERVAL <= now - last_seen (site_or_default d (visited_sites w)))%Q.
Proof.
  unfold accepted. rewrite negb_true_iff. apply Qltb_false.
Qed.

(** A discarded call does nothing beyond the [defaultdict] lookup. *)
Lemma log_visit_discarded (now : Q) (d : string) (w : world) :
  accepted now d w = false ->
  log_visit E now d w = (Ok tt, touched d w).
Proof.
  unfold accepted. rewrite negb_false_iff. intros H.
  unfold log_visit. unfold bind at 1. rewrite getitem_touched, H. reflexivity.
Qed.

(** An accepted call: the record of [domain] gets one more visit and
    the clock reading; on a record that had visits already nothing else
    changes. *)
Lemma log_visit_accepted (now : Q) (d : string) (w : world) :
  accepted now d w = true ->
  let old := site_or_default d (visited_sites w) in
  exists v,
    visited_sites (snd (log_visit E now d w)) = store_site d v (visited_sites w) /\
    visits v = (visits old + 1)%Z /\
    last_seen v = now /\
    (visits old <> 0%Z -> v = set_last_seen now (set_visits (visits old + 1) old)).
Proof.
  intros H old. unfold accepted in H. rewrite negb_true_iff in H. fold old in H.
  unfold log_visit. unfold bind at 1. rewrite getitem_touched. fold old. rewrite H.
  pose proof (touched_sites d w) as H0. fold old in H0.
  destruct (data_update_sites d (fun x => set_visits (visits x + 1) x) old _ _ H0)
    as [Hr1 H1].
  unfold bind at 1.
  destruct (data_update d _ (touched d w)) as [r1 w1]. simpl in Hr1, H1. subst r1.
  destruct (data_update_sites d (set_last_seen now) _ _ _ H1) as [Hr2 H2].
  unfold bind at 1.
  destruct (data_update d (set_last_seen now) w1) as [r2 w2].
  simpl in Hr2, H2. subst r2.
  unfold bind at 1. unfold data_read at 1.
  rewrite H2, site_or_default_store. simpl visits.
  unfold bind at 1.
  destruct (Z.eqb (visits old + 1) 1) eqn:Hfirst.
  - destruct (first_visit_sites now d _ _ w2 H2) as (v' & Hv' & Hvis & Hls).
    simpl in Hvis, Hls.
    exists v'.
    assert (Hold : visits old <> 0%Z -> v' = set_last_seen now (set_visits (visits old + 1) old))
      by (intros Hne; exfalso; lia).
    destruct (first_visit E now d w2) as [[[]|e] w3]; simpl in Hv'; simpl.
    + now rewrite Hv'.
    + now rewrite Hv'.
  - simpl. exists (set_last_seen now (set_visits (visits old + 1) old)).
    now rewrite H2.
Qed.

(** Either way only the record of [domain] is concerned. *)
Lemma log_visit_sites (now : Q) (d : string) (w : world) :
  exists v,
    visited_sites (snd (log_visit E now d w)) = store_site d v (visited_sites w) /\
    (accepted now d w = false -> v = site_or_default d (visited_sites w)) /\
    (accepted now d w = true ->
       visits v = (visits (site_or_default d (visited_sites w)) + 1)%Z /\
       last_seen v = now).
Proof.
  destruct (accepted now d w) eqn:Ha.
  - destruct (log_visit_accepted now d w Ha) as (v & Hv & Hvis & Hls & _).
    exists v. repeat split; try assumption; discriminate.
  - exists (site_or_default d (visited_sites w)).
    rewrite (log_visit_discarded now d w Ha). simpl.
    split; [apply touched_sites|]. split; [reflexivity|discriminate].
Qed.
End AggregatorFacts.

(** ** The debounce rule *)

Section Debounce.
Variable E : env.

Lemma lookup_after_log_visit (now : Q) (d : string) (w : world) :
  let old := site_or_default d (visited_sites w) in
  exists v,
    lookup_site d (visited_sites (snd (log_visit E now d w))) = Some v /\
    (accepted now d w = false -> v = old) /\
    (accepted now d w = true -> visits v = (visits old + 1)%Z /\ last_seen v = now).
Proof.
  intros old. destruct (log_visit_sites E now d w) as (v & Hv & Hd & Ha).
  exists v. rewrite Hv, lookup_store_eq. auto.
Qed.

Lemma lookup_other_after_log_visit (now : Q) (d d' : string) (w : world) :
  d <> d' ->
  lookup_site d' (visited_sites (snd (log_visit E now d w)))
  = lookup_site d' (visited_sites w).
Proof.
  intros Hne. destruct (log_visit_sites E now d w) as (v & Hv & _).
  rewrite Hv. now apply lookup_store_ne.
Qed.

Lemma first_visit_accepted (now : Q) (d : string) (w : world) :
  lookup_site d (visited_sites w) = None ->
  (MIN_INTERVAL <= now)%Q ->
  accepted now d w = true.
Proof.
  intros Hnone Hnow. apply accepted_true.
  unfold site_or_default. rewrite Hnone. simpl. unfold MIN_INTERVAL in *. lra.
Qed.

(** Two visits of a new domain, [gap] seconds apart, the first at a
    clock reading of at least [MIN_INTERVAL]. *)
Lemma two_visits (t0 gap : Q) (d : string) :
  (MIN_INTERVAL <= t0)%Q ->
  visits_of d (run E [(t0, d); ((t0 + gap)%Q, d)] initial_world)
  = Some (if Qltb gap MIN_INTERVAL then 1%Z else 2%Z).
Proof.
  intros Ht0. simpl run.
  destruct (lookup_after_log_visit t0 d initial_world) as (v & Hv & _ & Ha).
  specialize (Ha (first_visit_accepted t0 d initial_world eq_refl Ht0)).
  simpl in Ha. destruct Ha as [Hvis Hls].
  set (w1 := snd (log_visit E t0 d initial_world)) in *.
  assert (Hold : site_or_default d (visited_sites w1) = v)
    by (unfold site_or_default; now rewrite Hv).
  destruct (lookup_after_log_visit (t0 + gap) d w1) as (v2 & Hv2 & Hd2 & Ha2).
  rewrite Hold in Hd2, Ha2.
  unfold visits_of. rewrite Hv2. simpl. f_equal.
  destruct (Qltb gap MIN_INTERVAL) eqn:Hgap.
  - rewrite Hd2; [exact Hvis|].
    apply accepted_false. rewrite Hold, Hls.
    apply Qltb_true in Hgap. lra.
  - destruct Ha2 as [Hvis2 _]; [|lia].
    apply accepted_true. rewrite Hold, Hls.
    apply Qltb_false in Hgap. lra.
Qed.

(** C1: on a domain that has a record (one for which [log_visit] was
    called before), a call within [MIN_INTERVAL] of [last_seen] changes
    nothing at all, and a call at [MIN_INTERVAL] or more adds exactly one
    visit and sets [last_seen] to the clock reading.  Counting time from
    the first visit of a new domain, made at a clock reading [t0] of at
    least [MIN_INTERVAL] (as every reading of [time.time()] is), visits
    at 0 and 5 count 1 and visits at 0 and 11 count 2. *)
Theorem debounce_rule (now : Q) (d : string) (v : site_data) (w : world) :
  lookup_site d (visited_sites w) = Some v ->
  ((now - last_seen v < MIN_INTERVAL)%Q -> log_visit E now d w = (Ok tt, w)) /\
  ((MIN_INTERVAL <= now - last_seen v)%Q ->
     exists v', lookup_site d (visited_sites (snd (log_visit E now d w))) = Some v' /\
                visits v' = (visits v + 1)%Z /\ last_seen v' = now) /\
  (forall t0 : Q, (MIN_INTERVAL <= t0)%Q ->
     visits_of d (run E [(t0, d); ((t0 + 5)%Q, d)] initial_world) = Some 1%Z /\
     visits_of d (run E [(t0, d); ((t0 + 11)%Q, d)] initial_world) = Some 2%Z).
Proof.
  intros Hv.
  assert (Hold : site_or_default d (visited_sites w) = v)
    by (unfold site_or_default; now rewrite Hv).
  split; [|split].
  - intros Hlt. rewrite log_visit_discarded.
    + now rewrite (touched_present d v w Hv).
    + apply accepted_false. now rewrite Hold.
  - intros Hge.
    destruct (lookup_after_log_visit now d w) as (v' & Hv' & _ & Ha).
    rewrite Hold in Ha. exists v'. split; [exact Hv'|].
    apply Ha. apply accepted_true. now rewrite Hold.
  - intros t0 Ht0. split.
    + now rewrite (two_visits t0 5 d Ht0).
    + now rewrite (two_visits t0 11 d Ht0).
Qed.

(** C10: a call at exactly [MIN_INTERVAL] after [last_seen] (0 for a
    domain with no record) is accepted: one more visit, and [last_seen]
    set to the clock reading.  The calls that leave the record of the
    domain as it was are exactly those strictly below [MIN_INTERVAL]. *)
Theorem debounce_boundary_exclusive (now : Q) (d : string) (w : world) :
  (now - last_seen (site_or_default d (visited_sites w)) == MIN_INTERVAL)%Q ->
  accepted now d w = true /\
  (exists v, lookup_site d (visited_sites (snd (log_visit E now d w))) = Some v /\
             visits v = (visits (site_or_default d (visited_sites w)) + 1)%Z /\
             last_seen v = now) /\
  (forall t : Q,
     (t - last_seen (site_or_default d (visited_sites w)) < MIN_INTERVAL)%Q <->
     lookup_site d (visited_sites (snd (log_visit E t d w)))
     = Some (site_or_default d (visited_sites w))).
Proof.
  intros Heq.
  assert (Hacc : accepted now d w = true).
  { apply accepted_true. rewrite Heq. apply Qle_refl. }
  split; [exact Hacc|]. split.
  - destruct (lookup_after_log_visit now d w) as (v & Hv & _ & Ha).
    exists v. split; [exact Hv|]. now apply Ha.
  - intros t. destruct (lookup_after_log_visit t d w) as (v & Hv & Hd & Ha).
    rewrite Hv. split.
    + intros Hlt. f_equal. apply Hd. now apply accepted_false.
    + intros [= ->]. apply accepted_false.
      destruct (accepted t d w); [|reflexivity].
      destruct Ha as [Hvis _]; [reflexivity|lia].
Qed.
End Debounce.

(** C1 at the record of ["example.com"] seen at 100, visited again at 105. *)
Lemma debounce_rule_witness :
  log_visit (env_no_key 200) 105 "example.com" world_seen_at_100
  = (Ok tt, world_seen_at_100).
Proof.
  refine (proj1 (debounce_rule (env_no_key 200) 105 "example.com"
                   (site_or_default "example.com" (visited_sites world_seen_at_100))
                   world_seen_at_100 _) _).
  - vm_compute. reflexivity.
  - vm_compute. reflexivity.
Defined.

(** C10 at the record of ["example.com"] seen at 100, visited again at 110. *)
Lemma debounce_boundary_exclusive_witness :
  accepted 110 "example.com" world_seen_at_100 = true /\
  exists v,
    lookup_site "example.com"
      (visited_sites (snd (log_visit (env_no_key 200) 110 "example.com" world_seen_at_100)))
    = Some v /\
    visits v
    = (visits (site_or_default "example.com" (visited_sites world_seen_at_100)) + 1)%Z /\
    last_seen v = 110%Q.
Proof.
  destruct (debounce_boundary_exclusive (env_no_key 200) 110 "example.com"
              world_seen_at_100) as (Ha & Hv & _).
  - vm_compute. reflexivity.
  - split; assumption.
Defined.

(** ** Existence of records *)

Lemma lookup_store_is_Some (d d' : string) (v : site_data) (s : list item) :
  is_Some (lookup_site d' (store_site d v s)) <->
  d' = d \/ is_Some (lookup_site d' s).
Proof.
  destruct (String.eqb_spec d d') as [->|Hne].
  - rewrite lookup_store_eq. split; eauto.
  - rewrite lookup_store_ne by exact Hne. split; [tauto|].
    intros [->|H]; [contradiction|exact H].
Qed.

Lemma lookup_site_In (d : string) (v : site_data) (s : list item) :
  lookup_site d s = Some v -> In (d, v) s.
Proof.
  induction s as [|[k v0] s IH]; simpl; [discriminate|].
  destruct (String.eqb_spec k d) as [->|Hne].
  - intros [= ->]. now left.
  - intros H. right. now apply IH.
Qed.

Lemma Forall_store_site (P : item -> Prop) (d : string) (v : site_data) (s : list item) :
  Forall P s -> P (d, v) -> Forall P (store_site d v s).
Proof.
  intros Hs Hv. induction Hs as [|[k v0] s Hk Hs IH]; simpl.
  - now constructor.
  - destruct (String.eqb_spec k d) as [->|Hne]; now constructor.
Qed.

Section Records.
Variable E : env.

Lemma log_visit_record_exists (now : Q) (d d' : string) (w : world) :
  is_Some (lookup_site d' (visited_sites (snd (log_visit E now d w)))) <->
  d' = d \/ is_Some (lookup_site d' (visited_sites w)).
Proof.
  destruct (log_visit_sites E now d w) as (v & Hv & _).
  rewrite Hv. apply lookup_store_is_Some.
Qed.

(** The lookup creates the record: a domain has one as soon as
    [log_visit] was called for it, accepted or not. *)
Lemma run_record_exists (events : list (Q * string)) (d : string) (w : world) :
  is_Some (lookup_site d (visited_sites (run E events w))) <->
  is_Some (lookup_site d (visited_sites w)) \/ In d (map snd events).
Proof.
  revert w. induction events as [|[now d0] events IH]; intros w; simpl.
  - tauto.
  - rewrite IH, log_visit_record_exists. intuition congruence.
Qed.

Lemma run_record_accepted (events : list (Q * string)) (d : string) (w : world) :
  Forall at_or_after_interval events ->
  is_Some (lookup_site d (visited_sites (run E events w))) <->
  is_Some (lookup_site d (visited_sites w)) \/ accepted_in E d events w = true.
Proof.
  intros Hev. revert w.
  induction Hev as [|[now d0] events Hnow Hev IH]; intros w; simpl.
  - intuition discriminate.
  - rewrite IH, log_visit_record_exists, orb_true_iff, andb_true_iff.
    rewrite String.eqb_eq. split.
    + intros [[->|H]|H]; [|tauto|tauto].
      destruct (lookup_site d0 (visited_sites w)) as [v|] eqn:Hl; [left; eauto|].
      right. left. split; [reflexivity|].
      now apply first_visit_accepted.
    + intros [H|[[-> _]|H]]; tauto.
Qed.

Lemma log_visit_well_visited (now : Q) (d : string) (w : world) :
  (MIN_INTERVAL <= now)%Q ->
  well_visited (visited_sites w) ->
  well_visited (visited_sites (snd (log_visit E now d w))).
Proof.
  intros Hnow Hw.
  destruct (log_visit_sites E now d w) as (v & Hv & Hd & Ha).
  rewrite Hv. apply Forall_store_site; [exact Hw|]. simpl.
  unfold site_or_default in *.
  destruct (lookup_site d (visited_sites w)) as [v0|] eqn:Hl.
  - apply lookup_site_In in Hl.
    unfold well_visited in Hw. rewrite List.Forall_forall in Hw.
    specialize (Hw _ Hl). simpl in Hw.
    destruct (accepted now d w).
    + destruct Ha as [Hvis _]; [reflexivity|lia].
    + now rewrite Hd.
  - rewrite (first_visit_accepted now d w Hl Hnow) in Ha.
    destruct Ha as [Hvis _]; [reflexivity|]. rewrite Hvis. simpl. lia.
Qed.

Lemma run_well_visited (events : list (Q * string)) (w : world) :
  Forall at_or_after_interval events ->
  well_visited (visited_sites w) ->
  well_visited (visited_sites (run E events w)).
Proof.
  intros Hev. revert w.
  induction Hev as [|[now d0] events Hnow Hev IH]; intros w Hw; simpl.
  - exact Hw.
  - apply IH. now apply log_visit_well_visited.
Qed.

Variable str_lower : string -> string.

(** C8: from the start of the process, with every call made at a clock
    reading of at least [MIN_INTERVAL] (as every reading of [time.time()]
    is), a domain has a record if and only if at least one of its calls
    was accepted (and if and only if [log_visit] was called for it at
    all: its first call is always accepted), and no row of the snapshot
    has a visit count of zero. *)
Theorem record_exists_iff_accepted (events : list (Q * string)) (d : string) :
  Forall at_or_after_interval events ->
  (is_Some (lookup_site d (visited_sites (run E events initial_world))) <->
   In d (map snd events)) /\
  (is_Some (lookup_site d (visited_sites (run E events initial_world))) <->
   accepted_in E d events initial_world = true) /\
  (forall it : item, In it (snapshot str_lower (run E events initial_world)) ->
     (1 <= visits (snd it))%Z).
Proof.
  intros Hev. split; [|split].
  - rewrite run_record_exists. simpl. split; [intros [[? [=]]|?]; assumption|tauto].
  - rewrite (run_record_accepted events d initial_world Hev). simpl.
    split; [intros [[? [=]]|?]; assumption|tauto].
  - intros it Hin.
    assert (Hw : well_visited (visited_sites (run E events initial_world)))
    by (apply run_well_visited; [exact Hev|constructor]).
    unfold well_visited in Hw. rewrite List.Forall_forall in Hw. apply Hw.
    rewrite snapshot_sorted_sites in Hin.
    eapply Permutation_in; [|exact Hin]. apply sorted_reverse_perm.
Qed.
End Records.

(** C8 at two calls for ["example.com"], at 100 and at 105. *)
Lemma record_exists_iff_accepted_witness :
  (is_Some (lookup_site "example.com"
     (visited_sites (run (env_no_key 200)
        [(100%Q, "example.com"); (105%Q, "example.com")] initial_world))) <->
   accepted_in (env_no_key 200) "example.com"
     [(100%Q, "example.com"); (105%Q, "example.com")] initial_world = true).
Proof.
  refine (proj1 (proj2 (record_exists_iff_accepted (env_no_key 200) (fun s => s)
                   [(100%Q, "example.com"); (105%Q, "example.com")] "example.com" _))).
  repeat constructor; vm_compute; discriminate.
Defined.

(** ** Enrichment: once per domain *)

Lemma is_call_reputation (u d d' : string) :
  is_call reputation_lookup d' (call_requests_post u ("http://" ++ d)) = String.eqb d d'.
Proof. reflexivity. Qed.

Lemma call_count_app (k : lookup_kind) (d : string) (l1 l2 : list remote_call) :
  call_count k d (l1 ++ l2)%list = (call_count k d l1 + call_count k d l2)%nat.
Proof. unfold call_count. now rewrite List.filter_app, length_app. Qed.

Lemma few_calls_nil (d : string) : few_calls d [].
Proof. intros k d'. unfold call_count. simpl. split; [lia|reflexivity]. Qed.

Lemma call_count_nil (k : lookup_kind) (d : string) : call_count k d [] = 0%nat.
Proof. reflexivity. Qed.

Lemma call_count_single (k : lookup_kind) (d : string) (c : remote_call) :
  call_count k d [c] = if is_call k d c then 1%nat else 0%nat.
Proof. unfold call_count. simpl. now destruct (is_call k d c). Qed.

Lemma is_call_gethostbyname (k : lookup_kind) (d d' : string) :
  is_call k d' (call_gethostbyname d)
  = match k with address_lookup => String.eqb d d' | _ => false end.
Proof. now destruct k. Qed.

Lemma is_call_whois (k : lookup_kind) (d d' : string) :
  is_call k d' (call_whois d)
  = match k with organization_lookup => String.eqb d d' | _ => false end.
Proof. now destruct k. Qed.

Lemma is_call_requests_post (k : lookup_kind) (u d d' : string) :
  is_call k d' (call_requests_post u ("http://" ++ d))
  = match k with reputation_lookup => String.eqb d d' | _ => false end.
Proof. now destruct k. Qed.

Lemma few_calls_first_visit (d u : string) (l1 l2 l3 : list remote_call) :
  l1 = [] \/ l1 = [call_gethostbyname d] ->
  l2 = [] \/ l2 = [call_whois d] ->
  l3 = [] \/ l3 = [call_requests_post u ("http://" ++ d)] ->
  few_calls d (l1 ++ l2 ++ l3)%list.
Proof.
  intros H1 H2 H3 k d'. rewrite !call_count_app.
  destruct H1 as [-> | ->], H2 as [-> | ->], H3 as [-> | ->];
    rewrite ?call_count_nil, ?call_count_single, ?is_call_gethostbyname,
      ?is_call_whois, ?is_call_requests_post;
    destruct k; destruct (String.eqb_spec d d') as [->|Hne]; simpl;
    (split; [lia | intros Hd; try reflexivity; congruence]).
Qed.

Section Enrichment.
Variable E : env.

Lemma get_ip_calls (d : string) (w : world) :
  exists l, remote_calls (snd (get_ip E d w)) = (remote_calls w ++ l)%list /\
            (l = [] \/ l = [call_gethostbyname d]).
Proof.
  unfold get_ip. run_monad.
  destruct (ip_cache w !! d).
  - exists []. simpl. rewrite app_nil_r. auto.
  - exists [call_gethostbyname d]. split; [|auto].
    destruct (socket_gethostbyname E _ d) as [a|e]; simpl; [reflexivity|].
    now destruct (is_gaierror e).
Qed.

Lemma get_whois_org_calls (d : string) (w : world) :
  exists l, remote_calls (snd (get_whois_org E d w)) = (remote_calls w ++ l)%list /\
            (l = [] \/ l = [call_whois d]).
Proof.
  unfold get_whois_org, pick_org. run_monad.
  destruct (whois_cache w !! d).
  - exists []. simpl. rewrite app_nil_r. auto.
  - exists [call_whois d]. split; [|auto].
    destruct (whois_whois E _ d) as [[|s|[|s l]]|e]; reflexivity.
Qed.

Lemma check_safety_calls (d : string) (w : world) :
  exists l, remote_calls (snd (check_safety E d w)) = (remote_calls w ++ l)%list /\
            (l = [] \/
             l = [call_requests_post (safe_browsing_url (GOOGLE_SAFE_BROWSING_API_KEY E))
                    ("http://" ++ d)]).
Proof.
  unfold check_safety, verdict. run_monad.
  destruct (safety_cache w !! d).
  { exists []. simpl. rewrite app_nil_r. auto. }
  destruct (decide _).
  { exists []. simpl. rewrite app_nil_r. auto. }
  eexists. split; [|right; reflexivity].
  destruct (requests_post E _ _ _) as [r|e]; simpl.
  - destruct (Z.eqb (status_code r) 200); simpl; [|reflexivity].
    destruct (json_matches r) as [m|e]; simpl; [reflexivity|].
    now destruct (is_RequestException e).
  - now destruct (is_RequestException e).
Qed.

Lemma data_update_eq (d : string) (f : site_data -> site_data) (w : world) :
  data_update d f w
  = (Ok tt, with_visited_sites
              (store_site d (f (site_or_default d (visited_sites w))) (visited_sites w)) w).
Proof. reflexivity. Qed.

Lemma data_update_calls (d : string) (f : site_data -> site_data) (w : world) :
  remote_calls (snd (data_update d f w)) = remote_calls w.
Proof. reflexivity. Qed.

Lemma touched_calls (d : string) (w : world) :
  remote_calls (touched d w) = remote_calls w.
Proof.
  unfold touched, visited_sites_getitem.
  now destruct (lookup_site d (visited_sites w)).
Qed.

(** The first-visit block makes at most one call of each kind, all of
    them for [domain]. *)
Lemma first_visit_calls (now : Q) (d : string) (w : world) :
  exists l, remote_calls (snd (first_visit E now d w)) = (remote_calls w ++ l)%list /\
            few_calls d l.
Proof.
  assert (Hgoal : exists l1 l2 l3,
    remote_calls (snd (first_visit E now d w)) = (remote_calls w ++ l1 ++ l2 ++ l3)%list /\
    (l1 = [] \/ l1 = [call_gethostbyname d]) /\
    (l2 = [] \/ l2 = [call_whois d]) /\
    (l3 = [] \/
     l3 = [call_requests_post (safe_browsing_url (GOOGLE_SAFE_BROWSING_API_KEY E))
             ("http://" ++ d)])).
  { unfold first_visit. unfold bind at 1. rewrite data_update_eq. cbv beta iota.
    set (w1 := with_visited_sites _ w).
    assert (H1 : remote_calls w1 = remote_calls w) by reflexivity. clearbody w1.
    unfold bind at 1.
    destruct (get_ip_calls d w1) as (l1 & H2 & Hl1). rewrite H1 in H2.
    destruct (get_ip E d w1) as [[a|e] w2]; simpl in H2.
    2:{ exists l1, [], []. simpl. rewrite app_nil_r. auto. }
    unfold bind at 1. rewrite data_update_eq. cbv beta iota.
    set (w3 := with_visited_sites _ w2).
    assert (H3 : remote_calls w3 = (remote_calls w ++ l1)%list) by exact H2.
    clearbody w3. unfold bind at 1.
    destruct (get_whois_org_calls d w3) as (l2 & H4 & Hl2). rewrite H3 in H4.
    destruct (get_whois_org E d w3) as [[o|e] w4]; simpl in H4.
    2:{ exists l1, l2, []. simpl. rewrite app_nil_r, <- app_assoc in *. auto. }
    unfold bind at 1. rewrite data_update_eq. cbv beta iota.
    set (w5 := with_visited_sites _ w4).
    assert (H5 : remote_calls w5 = ((remote_calls w ++ l1) ++ l2)%list) by exact H4.
    clearbody w5. unfold bind at 1.
    destruct (check_safety_calls d w5) as (l3 & H6 & Hl3). rewrite H5 in H6.
    destruct (check_safety E d w5) as [[c|e] w6]; simpl in H6.
    2:{ exists l1, l2, l3. simpl. rewrite <- !app_assoc in *. auto. }
    exists l1, l2, l3. rewrite data_update_calls, H6, <- !app_assoc. auto. }
  destruct Hgoal as (l1 & l2 & l3 & Hl & H1 & H2 & H3).
  exists (l1 ++ l2 ++ l3)%list. split; [exact Hl|].
  eapply few_calls_first_visit; eassumption.
Qed.
End Enrichment.

Section OncePerDomain.
Variable E : env.

(** Calls are made on the first accepted visit of a domain only. *)
Lemma log_visit_calls (now : Q) (d : string) (w : world) :
  exists l,
    remote_calls (snd (log_visit E now d w)) = (remote_calls w ++ l)%list /\
    few_calls d l /\
    (l <> [] ->
     accepted now d w = true /\ visits (site_or_default d (visited_sites w)) = 0%Z).
Proof.
  destruct (accepted now d w) eqn:Hacc.
  2:{ exists []. rewrite (log_visit_discarded E now d w Hacc). simpl.
      rewrite touched_calls, app_nil_r.
      split; [reflexivity|]. split; [apply few_calls_nil|congruence]. }
  pose proof Hacc as H. unfold accepted in H. rewrite negb_true_iff in H.
  set (old := site_or_default d (visited_sites w)) in *.
  unfold log_visit. unfold bind at 1. rewrite getitem_touched. fold old. rewrite H.
  unfold bind at 1. rewrite data_update_eq. cbv beta iota.
  unfold bind at 1. rewrite data_update_eq. cbv beta iota.
  unfold bind at 1. unfold data_read at 1. cbv beta iota.
  cbn [visited_sites with_visited_sites].
  rewrite !touched_sites. fold old. rewrite !site_or_default_store, !store_store.
  cbn [visits set_last_seen set_visits].
  set (w2 := with_visited_sites _ _).
  assert (H2 : remote_calls w2 = remote_calls w) by apply touched_calls.
  clearbody w2. unfold bind at 1.
  destruct (Z.eqb (visits old + 1) 1) eqn:Hfirst.
  - destruct (first_visit_calls E now d w2) as (l & Hl & Hfew). rewrite H2 in Hl.
    exists l.
    assert (Hzero : visits old = 0%Z) by lia.
    destruct (first_visit E now d w2) as [[[]|e] w3]; simpl in Hl; simpl; auto.
  - exists []. simpl. rewrite H2, app_nil_r.
    split; [reflexivity|]. split; [apply few_calls_nil|congruence].
Qed.

Lemma visits_default_nonneg (d : string) (s : list item) :
  Forall (fun it => (0 <= visits (snd it))%Z) s ->
  (0 <= visits (site_or_default d s))%Z.
Proof.
  intros Hs. unfold site_or_default.
  destruct (lookup_site d s) as [v|] eqn:Hl; [|simpl; lia].
  apply lookup_site_In in Hl. rewrite List.Forall_forall in Hs.
  exact (Hs _ Hl).
Qed.

Lemma log_visit_calls_bounded (now : Q) (d : string) (w : world) :
  calls_bounded w -> calls_bounded (snd (log_visit E now d w)).
Proof.
  intros [Hnn Hc].
  destruct (log_visit_sites E now d w) as (v & Hv & Hd & Ha).
  destruct (log_visit_calls now d w) as (l & Hl & Hfew & Hne).
  pose proof (visits_default_nonneg d _ Hnn) as Hold.
  assert (Hv0 : (0 <= visits v)%Z).
  { destruct (accepted now d w).
    - destruct Ha as [Hvis _]; [reflexivity|lia].
    - now rewrite Hd. }
  split.
  - rewrite Hv. now apply Forall_store_site.
  - intros k d'. rewrite Hl, Hv, call_count_app.
    destruct (Hc k d') as [Hle Hzero]. destruct (Hfew k d') as [Hl1 Hl0].
    destruct l as [|c l'].
    + rewrite call_count_nil, Nat.add_0_r. split; [exact Hle|].
      intros Hvis. apply Hzero.
      destruct (String.eqb_spec d d') as [<-|Hdd].
      * rewrite site_or_default_store in Hvis.
        destruct (accepted now d w).
        -- destruct Ha as [Hvis' _]; [reflexivity|lia].
        -- rewrite <- Hd; [exact Hvis|reflexivity].
      * now rewrite site_or_default_store_ne in Hvis.
    + destruct Hne as [Hacc Hz]; [discriminate|].
      destruct (String.eqb_spec d d') as [<-|Hdd].
      * rewrite (proj2 (Hc k d) Hz). split; [simpl; exact Hl1|].
        rewrite site_or_default_store. rewrite Hacc in Ha.
        destruct Ha as [Hvis' _]; [reflexivity|lia].
      * rewrite Hl0 by congruence. rewrite Nat.add_0_r. split; [exact Hle|].
        rewrite site_or_default_store_ne by exact Hdd. exact Hzero.
Qed.

Lemma run_calls_bounded (events : list (Q * string)) (w : world) :
  calls_bounded w -> calls_bounded (run E events w).
Proof.
  revert w. induction events as [|[now d] events IH]; intros w Hw; simpl.
  - exact Hw.
  - apply IH. now apply log_visit_calls_bounded.
Qed.

(** X7: over any sequence of calls from the start of the process, no lookup
    of any kind is made more than once for a domain. *)
Lemma remote_calls_at_most_once (events : list (Q * string))
    (k : lookup_kind) (d : string) :
  (call_count k d (remote_calls (run E events initial_world)) <= 1)%nat.
Proof.
  assert (H0 : calls_bounded initial_world).
  { split; [constructor|]. intros k' d'. unfold call_count. simpl. split; [lia|reflexivity]. }
  exact (proj1 (proj2 (run_calls_bounded events initial_world H0) k d)).
Qed.

(** A call for a record that has visits already leaves every enrichment
    field of every record as it is. *)
Lemma log_visit_enrichment_kept (now : Q) (d d' : string) (w : world) :
  visits (site_or_default d' (visited_sites w)) <> 0%Z ->
  enrichment (site_or_default d' (visited_sites (snd (log_visit E now d w))))
  = enrichment (site_or_default d' (visited_sites w)).
Proof.
  intros Hvis. destruct (String.eqb_spec d d') as [<-|Hdd].
  - destruct (accepted now d w) eqn:Hacc.
    + destruct (log_visit_accepted E now d w Hacc) as (v & Hv & _ & _ & Hsame).
      rewrite Hv, site_or_default_store, (Hsame Hvis). reflexivity.
    + rewrite (log_visit_discarded E now d w Hacc). simpl.
      now rewrite touched_sites, site_or_default_store.
  - destruct (log_visit_sites E now d w) as (v & Hv & _).
    now rewrite Hv, site_or_default_store_ne.
Qed.

Lemma log_visit_visits_grow (now : Q) (d d' : string) (w : world) :
  (visits (site_or_default d' (visited_sites w))
   <= visits (site_or_default d' (visited_sites (snd (log_visit E now d w)))))%Z.
Proof.
  destruct (log_visit_sites E now d w) as (v & Hv & Hd & Ha). rewrite Hv.
  destruct (String.eqb_spec d d') as [<-|Hdd].
  - rewrite site_or_default_store. destruct (accepted now d w).
    + destruct Ha as [Hvis _]; [reflexivity|lia].
    + rewrite Hd; [lia|reflexivity].
  - rewrite site_or_default_store_ne by exact Hdd. lia.
Qed.

(** X8: once a record has a visit, no later call changes its enrichment
    fields. *)
Lemma run_enrichment_kept (events : list (Q * string)) (d : string) (w : world) :
  (1 <= visits (site_or_default d (visited_sites w)))%Z ->
  enrichment (site_or_default d (visited_sites (run E events w)))
  = enrichment (site_or_default d (visited_sites w)).
Proof.
  revert w. induction events as [|[now d0] events IH]; intros w Hw; simpl.
  - reflexivity.
  - rewrite IH.
    + apply log_visit_enrichment_kept. lia.
    + pose proof (log_visit_visits_grow now d0 d w). lia.
Qed.
End OncePerDomain.

(** C7, on the code: the resolver raises for the name (a label of 64
    characters) on the visit that takes the count from 0 to 1; that call
    ends there, and after a second accepted visit the record still holds
    the factory's values in its three enrichment fields: they were never
    written. *)
Theorem enrichment_never_written_after_raise :
  fst (log_visit env_bad_label 100 long_label_domain initial_world)
  = Raise (other_exception "UnicodeError") /\
  lookup_site long_label_domain
    (visited_sites (run env_bad_label
       [(100%Q, long_label_domain); (200%Q, long_label_domain)] initial_world))
  = Some {| visits := 2; ip := "N/A"; org := "N/A"; safety := "Not Checked";
            first_seen := 100; last_seen := 200 |}.
Proof. split; vm_compute; reflexivity. Qed.

(** * Further properties of the gateway and the aggregator *)

(** ** Relations every step keeps *)

Section Preserving.
Context {R : world -> world -> Prop}.
Hypothesis R_refl : forall w, R w w.
Hypothesis R_trans : forall w1 w2 w3, R w1 w2 -> R w2 w3 -> R w1 w3.

Lemma preserves_ret {A : Type} (a : A) : preserves R (ret a).
Proof. intros w. apply R_refl. Qed.

Lemma preserves_bind {A B : Type} (m : M A) (k : A -> M B) :
  preserves R m -> (forall a, preserves R (k a)) -> preserves R (bind m k).
Proof.
  intros Hm Hk w. unfold bind. specialize (Hm w).
  destruct (m w) as [[a|e] w1]; simpl in *; [|exact Hm].
  eapply R_trans; [exact Hm|apply Hk].
Qed.

Hypothesis R_sites : forall s w, R w (with_visited_sites s w).
Hypothesis R_log : forall l w, R w (with_log_lines l w).

Variable E : env.
Hypothesis R_get_ip : forall d, preserves R (get_ip E d).
Hypothesis R_get_whois_org : forall d, preserves R (get_whois_org E d).
Hypothesis R_check_safety : forall d, preserves R (check_safety E d).

Lemma preserves_data_update (d : string) (f : site_data -> site_data) :
  preserves R (data_update d f).
Proof. intros w. apply R_sites. Qed.

Lemma preserves_getitem (d : string) : preserves R (visited_sites_getitem d).
Proof.
  intros w. unfold visited_sites_getitem.
  destruct (lookup_site d (visited_sites w)); simpl; [apply R_refl|apply R_sites].
Qed.

Lemma preserves_first_visit (now : Q) (d : string) :
  preserves R (first_visit E now d).
Proof.
  unfold first_visit.
  apply preserves_bind; [apply preserves_data_update|intros _].
  apply preserves_bind; [apply R_get_ip|intros a].
  apply preserves_bind; [apply preserves_data_update|intros _].
  apply preserves_bind; [apply R_get_whois_org|intros o].
  apply preserves_bind; [apply preserves_data_update|intros _].
  apply preserves_bind; [apply R_check_safety|intros s].
  apply preserves_data_update.
Qed.

Lemma preserves_log_visit (now : Q) (d : string) :
  preserves R (log_visit E now d).
Proof.
  unfold log_visit. apply preserves_bind; [apply preserves_getitem|].
  intros data. destruct (Qltb _ _); [apply preserves_ret|].
  apply preserves_bind; [apply preserves_data_update|intros _].
  apply preserves_bind; [apply preserves_data_update|intros _].
  apply preserves_bind; [intros w; apply R_refl|intros data'].
  apply preserves_bind.
  - destruct (Z.eqb _ _); [apply preserves_first_visit|apply preserves_ret].
  - intros _. apply preserves_bind; [intros w; apply R_refl|intros data''].
    intros w. apply R_log.
Qed.

Lemma preserves_run (events : list (Q * string)) (w : world) :
  R w (run E events w).
Proof.
  revert w. induction events as [|[now d] events IH]; intros w; simpl.
  - apply R_refl.
  - eapply R_trans; [apply (preserves_log_visit now d)|apply IH].
Qed.
End Preserving.

(** ** The caches are write-once *)

Lemma caches_le_refl (w : world) : caches_le w w.
Proof. repeat split; reflexivity. Qed.

Lemma caches_le_trans (w1 w2 w3 : world) :
  caches_le w1 w2 -> caches_le w2 w3 -> caches_le w1 w3.
Proof.
  intros (A1 & B1 & C1) (A2 & B2 & C2).
  repeat split; etransitivity; eassumption.
Qed.

Section Caches.
Variable E : env.

Lemma get_ip_caches_le (d : string) : preserves caches_le (get_ip E d).
Proof.
  intros w. unfold get_ip. run_monad.
  destruct (ip_cache w !! d) eqn:Hc; [apply caches_le_refl|].
  destruct (socket_gethostbyname E _ d) as [a|e]; simpl.
  - split; [now apply insert_subseteq|split; reflexivity].
  - destruct (is_gaierror e); simpl; [|repeat split; reflexivity].
    split; [now apply insert_subseteq|split; reflexivity].
Qed.

Lemma get_whois_org_caches_le (d : string) : preserves caches_le (get_whois_org E d).
Proof.
  intros w. unfold get_whois_org, pick_org. run_monad.
  destruct (whois_cache w !! d) eqn:Hc; [apply caches_le_refl|].
  destruct (whois_whois E _ d) as [[|s|[|s l]]|e]; simpl;
    (split; [reflexivity|split; [now apply insert_subseteq|reflexivity]]).
Qed.

Lemma check_safety_caches_le (d : string) : preserves caches_le (check_safety E d).
Proof.
  intros w. destruct (safety_cache w !! d) as [c|] eqn:Hc.
  { rewrite (check_safety_cached E d c w Hc). apply caches_le_refl. }
  destruct (decide (GOOGLE_SAFE_BROWSING_API_KEY E = Some "YOUR_GOOGLE_API_KEY"))
    as [Hk|Hk].
  { rewrite (check_safety_placeholder_key E d w Hk Hc). apply caches_le_refl. }
  rewrite (check_safety_posts E d w Hk Hc).
  assert (Hins : forall s, caches_le w
            (with_safety_cache (<[d := s]> (safety_cache w))
               (with_remote_calls
                  (remote_calls w ++
                   [call_requests_post
                      (safe_browsing_url (GOOGLE_SAFE_BROWSING_API_KEY E))
                      ("http://" ++ d)]) w))).
  { intros s. split; [reflexivity|split; [reflexivity|now apply insert_subseteq]]. }
  destruct (requests_post E _ _ _) as [r|e].
  - destruct (Z.eqb (status_code r) 200); [|apply Hins].
    destruct (json_matches r) as [m|e]; [apply Hins|].
    destruct (is_RequestException e); [apply Hins|repeat split; reflexivity].
  - destruct (is_RequestException e); [apply Hins|repeat split; reflexivity].
Qed.

(** X6: over any sequence of visits every cache entry stays as it is: no
    entry is overwritten or evicted. *)
Theorem caches_never_evicted (events : list (Q * string)) (w : world) :
  caches_le w (run E events w).
Proof.
  apply (preserves_run caches_le_refl caches_le_trans).
  - intros s w0. repeat split; reflexivity.
  - intros l w0. repeat split; reflexivity.
  - apply get_ip_caches_le.
  - apply get_whois_org_caches_le.
  - apply check_safety_caches_le.
Qed.

(** X1: a call of [get_ip] that returned left its answer in the cache and
    kept every older entry; the next call gives the same answer from the
    cache and changes nothing, so it makes no call to the resolver. *)
Theorem get_ip_write_once (d a : string) (w w' : world) :
  get_ip E d w = (Ok a, w') ->
  ip_cache w' !! d = Some a /\
  ip_cache w ⊆ ip_cache w' /\
  get_ip E d w' = (Ok a, w').
Proof.
  intros H. split; [|split].
  - revert H. unfold get_ip. run_monad.
    destruct (ip_cache w !! d) as [c|] eqn:Hc.
    + intros [= <- <-]. exact Hc.
    + destruct (socket_gethostbyname E _ d) as [a'|e]; simpl.
      * intros [= <- <-]. simpl. apply lookup_insert_eq.
      * destruct (is_gaierror e); simpl; [|discriminate].
        intros [= <- <-]. simpl. apply lookup_insert_eq.
  - pose proof (get_ip_caches_le d w) as Hle. rewrite H in Hle. apply Hle.
  - exact (get_ip_twice E d a w w' H).
Qed.

Lemma get_whois_org_cached (d cached : string) (w : world) :
  whois_cache w !! d = Some cached ->
  get_whois_org E d w = (Ok cached, w).
Proof. intros H. unfold get_whois_org. run_monad. now rewrite H. Qed.

Lemma get_whois_org_result (d : string) (w : world) :
  exists o w', get_whois_org E d w = (Ok o, w') /\ whois_cache w' !! d = Some o.
Proof.
  destruct (whois_cache w !! d) as [c|] eqn:Hc.
  - exists c, w. split; [now apply get_whois_org_cached|exact Hc].
  - unfold get_whois_org, pick_org. run_monad. rewrite Hc.
    destruct (whois_whois E _ d) as [[|s|[|s l]]|e]; simpl;
      eexists; eexists; (split; [reflexivity|apply lookup_insert_eq]).
Qed.

(** X2: [get_whois_org] never raises: whatever the registry lookup does, it
    returns an organisation text, leaves it in the cache, and answers the
    next call from the cache without another lookup. *)
Theorem get_whois_org_total (d : string) (w : world) :
  exists o,
    fst (get_whois_org E d w) = Ok o /\
    whois_cache (snd (get_whois_org E d w)) !! d = Some o /\
    get_whois_org E d (snd (get_whois_org E d w))
    = (Ok o, snd (get_whois_org E d w)).
Proof.
  destruct (get_whois_org_result d w) as (o & w' & H & Hc).
  rewrite H. simpl. exists o. split; [reflexivity|]. split; [exact Hc|].
  now apply get_whois_org_cached.
Qed.

(** X3: on a cache miss the organisation text is never empty: an empty or
    missing [org] gives ["Unknown Org"], and a lookup that raised or gave
    an empty list gives ["WHOIS Error"]. *)
Theorem get_whois_org_never_empty (d : string) (w : world) :
  whois_cache w !! d = None ->
  fst (get_whois_org E d w) <> Ok "" /\
  (whois_whois E (remote_calls w) d = Ok org_None \/
   whois_whois E (remote_calls w) d = Ok (org_str "") ->
   fst (get_whois_org E d w) = Ok UNKNOWN_ORG) /\
  ((exists e, whois_whois E (remote_calls w) d = Raise e) \/
   whois_whois E (remote_calls w) d = Ok (org_list []) ->
   fst (get_whois_org E d w) = Ok WHOIS_ERROR).
Proof.
  intros Hc. unfold get_whois_org, pick_org. run_monad. rewrite Hc.
  destruct (whois_whois E _ d) as [[|s|[|s l]]|e]; simpl.
  - split; [discriminate|]. split; [reflexivity|].
    intros [[e [=]]|[=]].
  - split.
    + destruct (String.eqb_spec s ""); [discriminate|congruence].
    + split.
      * intros [[=]|[= ->]]. reflexivity.
      * intros [[e [=]]|[=]].
  - split; [discriminate|]. split; [intros [[=]|[=]]|reflexivity].
  - split.
    + destruct (String.eqb_spec s ""); [discriminate|congruence].
    + split; [intros [[=]|[=]]|intros [[e [=]]|[=]]].
  - split; [discriminate|]. split; [intros [[=]|[=]]|reflexivity].
Qed.

(** X4: a call of [check_safety] that returned gives the same verdict when
    repeated, with nothing changed and so no further request; older
    cache entries are kept; and on a cache miss the verdict is one of the
    four texts the function knows. *)
Theorem check_safety_repeatable (d s : string) (w w' : world) :
  check_safety E d w = (Ok s, w') ->
  check_safety E d w' = (Ok s, w') /\
  safety_cache w ⊆ safety_cache w' /\
  (safety_cache w !! d = None ->
   In s [API_KEY_MISSING; SAFE; MALICIOUS; API_ERROR]).
Proof.
  intros H.
  assert (Hle : safety_cache w ⊆ safety_cache w').
  { pose proof (check_safety_caches_le d w) as Hle. rewrite H in Hle. apply Hle. }
  destruct (safety_cache w !! d) as [c|] eqn:Hc.
  { rewrite (check_safety_cached E d c w Hc) in H. injection H as <- <-.
    split; [now apply check_safety_cached|]. split; [exact Hle|discriminate]. }
  destruct (decide (GOOGLE_SAFE_BROWSING_API_KEY E = Some "YOUR_GOOGLE_API_KEY"))
    as [Hk|Hk].
  { rewrite (check_safety_placeholder_key E d w Hk Hc) in H. injection H as <- <-.
    split; [now apply check_safety_placeholder_key|].
    split; [exact Hle|]. intros _. simpl. auto. }
  rewrite (check_safety_posts E d w Hk Hc) in H.
  assert (Hcached : forall v w1,
            (Ok v, with_safety_cache (<[d := v]> (safety_cache w)) w1) = (Ok s, w') ->
            check_safety E d w' = (Ok s, w')).
  { intros v w1 [= <- <-]. apply check_safety_cached. simpl. apply lookup_insert_eq. }
  split; [|split; [exact Hle|intros _]];
    destruct (requests_post E _ _ _) as [r|e];
    try destruct (Z.eqb (status_code r) 200);
    try destruct (json_matches r) as [m|e];
    try destruct (matches_truthy m);
    try destruct (is_RequestException e);
    try discriminate;
    try (eapply Hcached; exact H);
    injection H as <- _; simpl; auto.
Qed.
End Caches.

(** ** The log, the timestamps and the counters *)

Lemma same_log_refl (w : world) : same_log w w.
Proof. reflexivity. Qed.

Lemma same_log_trans (w1 w2 w3 : world) :
  same_log w1 w2 -> same_log w2 w3 -> same_log w1 w3.
Proof. unfold same_log. congruence. Qed.

Lemma existsb_eqb_In (d : string) (keys : list string) :
  existsb (fun k => String.eqb k d) keys = true <-> In d keys.
Proof.
  rewrite List.existsb_exists. split.
  - intros (k & Hk & Heq). apply String.eqb_eq in Heq. now subst.
  - intros H. exists d. split; [exact H|apply String.eqb_refl].
Qed.

Lemma keys_store_site (d : string) (v : site_data) (s : list item) :
  map fst (store_site d v s) = add_key (map fst s) d.
Proof.
  unfold add_key. induction s as [|[k v0] s IH]; simpl; [reflexivity|].
  destruct (String.eqb k d); simpl; [reflexivity|].
  rewrite IH. now destruct (existsb _ _).
Qed.

Lemma add_key_NoDup (keys : list string) (d : string) :
  List.NoDup keys -> List.NoDup (add_key keys d).
Proof.
  intros H. unfold add_key.
  destruct (existsb _ keys) eqn:Hex; [exact H|].
  apply NoDup_ListNoDup. apply NoDup_app. repeat split.
  - now apply NoDup_ListNoDup.
  - intros x Hx Hd. apply list_elem_of_In in Hx.
    apply list_elem_of_In in Hd. destruct Hd as [<-|[]].
    apply existsb_eqb_In in Hx. congruence.
  - apply NoDup_singleton.
Qed.

Lemma lookup_site_NoDup (d : string) (v : site_data) (s : list item) :
  List.NoDup (map fst s) -> In (d, v) s -> lookup_site d s = Some v.
Proof.
  induction s as [|[k v0] s IH]; simpl; [tauto|].
  intros Hnd Hin. apply List.NoDup_cons_iff in Hnd. destruct Hnd as [Hk Hnd].
  destruct Hin as [[= -> ->]|Hin].
  - now rewrite String.eqb_refl.
  - destruct (String.eqb_spec k d) as [->|Hne]; [|now apply IH].
    exfalso. apply Hk. change d with (fst (d, v)). now apply List.in_map.
Qed.

Section Aggregate.
Variable E : env.

Lemma get_ip_same_log (d : string) : preserves same_log (get_ip E d).
Proof.
  intros w. unfold same_log, get_ip. run_monad.
  destruct (ip_cache w !! d); [reflexivity|].
  destruct (socket_gethostbyname E _ d) as [a|e]; simpl; [reflexivity|].
  now destruct (is_gaierror e).
Qed.

Lemma get_whois_org_same_log (d : string) : preserves same_log (get_whois_org E d).
Proof.
  intros w. unfold same_log, get_whois_org, pick_org. run_monad.
  destruct (whois_cache w !! d); [reflexivity|].
  destruct (whois_whois E _ d) as [[|s|[|s l]]|e]; reflexivity.
Qed.

Lemma check_safety_same_log (d : string) : preserves same_log (check_safety E d).
Proof.
  intros w. unfold same_log, check_safety, verdict. run_monad.
  destruct (safety_cache w !! d); [reflexivity|].
  destruct (decide _); [reflexivity|].
  destruct (requests_post E _ _ _) as [r|e]; simpl.
  - destruct (Z.eqb (status_code r) 200); simpl; [|reflexivity].
    destruct (json_matches r) as [m|e]; simpl; [reflexivity|].
    now destruct (is_RequestException e).
  - now destruct (is_RequestException e).
Qed.

Lemma first_visit_same_log (now : Q) (d : string) (w : world) :
  log_lines (snd (first_visit E now d w)) = log_lines w.
Proof.
  apply (preserves_first_visit same_log_trans).
  - intros s w0. reflexivity.
  - apply get_ip_same_log.
  - apply get_whois_org_same_log.
  - apply check_safety_same_log.
Qed.

Lemma touched_log (d : string) (w : world) :
  log_lines (touched d w) = log_lines w.
Proof.
  unfold touched, visited_sites_getitem.
  now destruct (lookup_site d (visited_sites w)).
Qed.

(** An accepted call, with the two updates of the counters done. *)
Lemma log_visit_accepted_eq (now : Q) (d : string) (w : world) :
  accepted now d w = true ->
  log_visit E now d w =
  bind (if Z.eqb (visits (site_or_default d (visited_sites w)) + 1) 1
        then first_visit E now d else ret tt)
       (fun _ => bind (data_read d) (fun data => logging_info (visit_message d data)))
       (with_visited_sites
          (store_site d
             (set_last_seen now
                (set_visits (visits (site_or_default d (visited_sites w)) + 1)
                   (site_or_default d (visited_sites w))))
             (visited_sites w))
          (touched d w)).
Proof.
  intros Hacc. unfold accepted in Hacc. rewrite negb_true_iff in Hacc.
  unfold log_visit. unfold bind at 1. rewrite getitem_touched, Hacc.
  unfold bind at 1. rewrite data_update_eq. cbv beta iota.
  unfold bind at 1. rewrite data_update_eq. cbv beta iota.
  unfold bind at 1. unfold data_read at 1. cbv beta iota.
  cbn [visited_sites with_visited_sites].
  rewrite !touched_sites. rewrite !site_or_default_store, !store_store.
  cbn [visits set_last_seen set_visits].
  reflexivity.
Qed.

(** X9: the log gets one line, with the fields of the record as they are
    after the call, for an accepted call that returns; a discarded call
    and a call that raises write none. *)
Theorem log_visit_log_lines (now : Q) (d : string) (w : world) :
  log_lines (snd (log_visit E now d w)) =
  (log_lines w ++
   (if accepted now d w then
      match fst (log_visit E now d w) with
      | Ok _ => [visit_message d
                   (site_or_default d (visited_sites (snd (log_visit E now d w))))]
      | Raise _ => []
      end
    else []))%list.
Proof.
  destruct (accepted now d w) eqn:Hacc.
  - pose proof (log_visit_accepted_eq now d w Hacc) as Heq.
    unfold bind at 1 in Heq.
    set (w2 := with_visited_sites _ (touched d w)) in Heq.
    assert (H2 : log_lines w2 = log_lines w) by apply touched_log.
    assert (H3 : log_lines
                   (snd ((if Z.eqb (visits (site_or_default d (visited_sites w)) + 1) 1
                          then first_visit E now d else ret tt) w2))
                 = log_lines w).
    { destruct (Z.eqb _ _); [now rewrite first_visit_same_log|exact H2]. }
    destruct ((if Z.eqb _ _ then first_visit E now d else ret tt) w2)
      as [[[]|e] w3]; simpl in H3; rewrite Heq;
      unfold bind, data_read, logging_info, modify; simpl.
    + now rewrite H3.
    + now rewrite H3, app_nil_r.
  - rewrite (log_visit_discarded E now d w Hacc). simpl.
    now rewrite touched_log, app_nil_r.
Qed.

(** The first-visit block keeps every property of the record that holds
    once [first_seen] is set and that no enrichment field changes. *)
Lemma first_visit_record (P : site_data -> Prop) (now : Q) (d : string)
    (v : site_data) (s : list item) (w : world) :
  (forall a x, P x -> P (set_ip a x)) ->
  (forall o x, P x -> P (set_org o x)) ->
  (forall c x, P x -> P (set_safety c x)) ->
  visited_sites w = store_site d v s ->
  P (set_first_seen now v) ->
  exists v', visited_sites (snd (first_visit E now d w)) = store_site d v' s /\ P v'.
Proof.
  intros Pip Porg Psafety H0 HP. unfold first_visit. unfold bind at 1.
  destruct (data_update_sites d (set_first_seen now) v s w H0) as [Hr1 H1].
  destruct (data_update d (set_first_seen now) w) as [r1 w1].
  simpl in Hr1, H1. subst r1. unfold bind at 1.
  pose proof (get_ip_sites E d w1) as H2.
  destruct (get_ip E d w1) as [[a|e] w2]; simpl in H2; rewrite H1 in H2;
    [|simpl; eauto].
  unfold bind at 1.
  destruct (data_update_sites d (set_ip a) _ s w2 H2) as [Hr3 H3].
  destruct (data_update d (set_ip a) w2) as [r3 w3].
  simpl in Hr3, H3. subst r3. unfold bind at 1.
  pose proof (get_whois_org_sites E d w3) as H4.
  destruct (get_whois_org E d w3) as [[o|e] w4]; simpl in H4; rewrite H3 in H4;
    [|simpl; eauto].
  unfold bind at 1.
  destruct (data_update_sites d (set_org o) _ s w4 H4) as [Hr5 H5].
  destruct (data_update d (set_org o) w4) as [r5 w5].
  simpl in Hr5, H5. subst r5. unfold bind at 1.
  pose proof (check_safety_sites E d w5) as H6.
  destruct (check_safety E d w5) as [[c|e] w6]; simpl in H6; rewrite H5 in H6;
    [|simpl; eauto].
  destruct (data_update_sites d (set_safety c) _ s w6 H6) as [_ H7].
  eauto 10.
Qed.

Lemma log_visit_seen_in_order (now : Q) (d : string) (w : world) :
  Forall seen_in_order (visited_sites w) ->
  Forall seen_in_order (visited_sites (snd (log_visit E now d w))).
Proof.
  intros Hw.
  set (old := site_or_default d (visited_sites w)).
  assert (Hold : (first_seen old <= last_seen old)%Q).
  { unfold old, site_or_default.
    destruct (lookup_site d (visited_sites w)) as [v|] eqn:Hl; [|simpl; lra].
    apply lookup_site_In in Hl. rewrite List.Forall_forall in Hw.
    exact (Hw _ Hl). }
  destruct (accepted now d w) eqn:Hacc.
  - rewrite (log_visit_accepted_eq now d w Hacc). fold old.
    pose proof (proj1 (accepted_true now d w) Hacc) as Hge. fold old in Hge.
    unfold MIN_INTERVAL in Hge.
    unfold bind at 1.
    set (w2 := with_visited_sites _ (touched d w)).
    assert (H2 : visited_sites w2
                 = store_site d (set_last_seen now (set_visits (visits old + 1) old))
                     (visited_sites w)) by reflexivity.
    clearbody w2.
    assert (Hgoal : Forall seen_in_order
              (visited_sites
                 (snd ((if Z.eqb (visits old + 1) 1
                        then first_visit E now d else ret tt) w2)))).
    { destruct (Z.eqb (visits old + 1) 1).
      - destruct (first_visit_record
                    (fun x => first_seen x = now /\ last_seen x = now)
                    now d (set_last_seen now (set_visits (visits old + 1) old))
                    (visited_sites w) w2) as (v' & Hv' & Hf & Hl);
          [tauto|tauto|tauto|exact H2|split; reflexivity|].
        rewrite Hv'. apply Forall_store_site; [exact Hw|].
        unfold seen_in_order. simpl. rewrite Hf, Hl. apply Qle_refl.
      - simpl. rewrite H2. apply Forall_store_site; [exact Hw|].
        unfold seen_in_order. simpl. lra. }
    destruct ((if Z.eqb _ _ then first_visit E now d else ret tt) w2)
      as [[[]|e] w3]; exact Hgoal.
  - rewrite (log_visit_discarded E now d w Hacc). simpl.
    rewrite touched_sites. now apply Forall_store_site.
Qed.

(** X10: in every state the process reaches, no record was first seen after
    it was last seen. *)
Theorem first_seen_before_last_seen (events : list (Q * string)) :
  Forall seen_in_order (visited_sites (run E events initial_world)).
Proof.
  assert (H : forall w, Forall seen_in_order (visited_sites w) ->
                        Forall seen_in_order (visited_sites (run E events w))).
  { induction events as [|[now d] events IH]; intros w Hw; simpl; [exact Hw|].
    apply IH. now apply log_visit_seen_in_order. }
  apply H. constructor.
Qed.

Lemma log_visit_visits (now : Q) (d d' : string) (w : world) :
  visits (site_or_default d' (visited_sites (snd (log_visit E now d w))))
  = (visits (site_or_default d' (visited_sites w))
     + (if String.eqb d d' && accepted now d w then 1 else 0))%Z.
Proof.
  destruct (log_visit_sites E now d w) as (v & Hv & Hd & Ha). rewrite Hv.
  destruct (String.eqb_spec d d') as [<-|Hne]; simpl.
  - rewrite site_or_default_store. destruct (accepted now d w).
    + now destruct Ha.
    + rewrite Hd by reflexivity. lia.
  - rewrite site_or_default_store_ne by exact Hne. lia.
Qed.

Lemma run_visits (events : list (Q * string)) (d : string) (w : world) :
  visits (site_or_default d (visited_sites (run E events w)))
  = (visits (site_or_default d (visited_sites w))
     + Z.of_nat (accepted_count E d events w))%Z.
Proof.
  revert w. induction events as [|[now d0] events IH]; intros w; simpl.
  - lia.
  - rewrite IH, log_visit_visits.
    destruct (String.eqb d0 d && accepted now d0 w); lia.
Qed.

(** X11: the visit count of a domain is the number of its calls that passed
    the debounce test (0 for a domain with no record). *)
Theorem visits_count_accepted (events : list (Q * string)) (d : string) :
  visits (site_or_default d (visited_sites (run E events initial_world)))
  = Z.of_nat (accepted_count E d events initial_world).
Proof. rewrite run_visits. reflexivity. Qed.

Lemma run_keys (events : list (Q * string)) (w : world) :
  map fst (visited_sites (run E events w))
  = fold_left add_key (map snd events) (map fst (visited_sites w)).
Proof.
  revert w. induction events as [|[now d] events IH]; intros w; simpl.
  - reflexivity.
  - rewrite IH. destruct (log_visit_sites E now d w) as (v & Hv & _).
    now rewrite Hv, keys_store_site.
Qed.

Lemma fold_add_key_NoDup (ds keys : list string) :
  List.NoDup keys -> List.NoDup (fold_left add_key ds keys).
Proof.
  revert keys. induction ds as [|d ds IH]; intros keys H; simpl; [exact H|].
  apply IH. now apply add_key_NoDup.
Qed.

(** X12: the dictionary holds every domain once, in the order in which the
    domains were first passed to [log_visit]. *)
Theorem records_in_order_of_first_call (events : list (Q * string)) :
  map fst (visited_sites (run E events initial_world)) = observed_domains events /\
  List.NoDup (map fst (visited_sites (run E events initial_world))).
Proof.
  rewrite run_keys. split; [reflexivity|].
  apply fold_add_key_NoDup. constructor.
Qed.
End Aggregate.

(** ** The report *)

Section Report.
Variable E : env.
Variable strftime : Q -> string.

Lemma visits_by_key (s : list item) :
  List.NoDup (map fst s) ->
  map (fun it => visits (snd it)) s
  = map (fun d => visits (site_or_default d s)) (map fst s).
Proof.
  intros Hnd. rewrite List.map_map. apply List.map_ext_in.
  intros [d v] Hin. simpl. unfold site_or_default.
  now rewrite (lookup_site_NoDup d v s Hnd Hin).
Qed.

(** X13: after any sequence of calls the report is [None] exactly when no
    call was made; otherwise it has one row per domain, in the order in
    which the domains were first passed to [log_visit], and the row of a
    domain shows the number of its calls that passed the debounce test
    (a domain whose calls were all discarded has a row with 0 visits). *)
Theorem report_after_run (events : list (Q * string)) :
  match events with
  | [] => get_data_as_dataframe strftime (run E events initial_world) = None
  | _ :: _ =>
      exists rows,
        get_data_as_dataframe strftime (run E events initial_world) = Some rows /\
        map Domain rows = observed_domains events /\
        map Visits rows
        = map (fun d => Z.of_nat (accepted_count E d events initial_world))
            (observed_domains events) /\
        Forall (fun r => Monitored_By r = MONITORED_BY) rows
  end.
Proof.
  destruct events as [|[now d] rest]; [reflexivity|].
  set (events := (now, d) :: rest).
  destruct (records_in_order_of_first_call E events) as [Hkeys Hnd].
  set (sites := visited_sites (run E events initial_world)) in *.
  exists (map (report_row_of strftime) sites).
  assert (Hne : sites <> []).
  { intros Hnil.
    assert (Hsome : is_Some (lookup_site d sites)).
    { apply run_record_exists. right. simpl. now left. }
    rewrite Hnil in Hsome. destruct Hsome as [? [=]]. }
  split; [|split; [|split]].
  - unfold get_data_as_dataframe. fold sites. now destruct sites.
  - rewrite <- Hkeys, List.map_map. reflexivity.
  - rewrite <- Hkeys, List.map_map.
    transitivity (map (fun it : item => visits (snd it)) sites);
      [apply List.map_ext; reflexivity|].
    etransitivity; [apply (visits_by_key sites Hnd)|]. apply List.map_ext.
    intros d'. apply visits_count_accepted.
  - apply Forall_forall. intros r Hr. apply list_elem_of_In in Hr.
    apply List.in_map_iff in Hr. destruct Hr as (it & <- & _). reflexivity.
Qed.
End Report.

(** ** Packets *)

Lemma rstrip_dots_of_dots (n : nat) : rstrip_dots (dots n) = "".
Proof. induction n as [|n IH]; simpl; [reflexivity|now rewrite IH]. Qed.

Lemma rstrip_dots_split (s : string) :
  exists n, s = rstrip_dots s ++ dots n.
Proof.
  induction s as [|c s IH]; simpl; [now exists O|].
  destruct IH as [n Hn].
  destruct (rstrip_dots s) as [|c' r] eqn:Hr.
  - simpl in Hn. subst s. destruct (Ascii.eqb_spec c ".") as [->|Hc].
    + now exists (S n).
    + now exists n.
  - exists n. rewrite Hn at 1. reflexivity.
Qed.

Lemma append_nil_l (u : string) : "" ++ u = u.
Proof. reflexivity. Qed.

Lemma append_String_l (c : ascii) (t u : string) :
  String c t ++ u = String c (t ++ u).
Proof. reflexivity. Qed.

Lemma append_assoc (t u v : string) : (t ++ u) ++ v = t ++ (u ++ v).
Proof.
  induction t as [|c t IH]; [reflexivity|].
  rewrite !append_String_l. now rewrite IH.
Qed.

Lemma append_dot_not_empty (t : string) : t ++ "." <> "".
Proof. destruct t; rewrite ?append_nil_l, ?append_String_l; discriminate. Qed.

Lemma rstrip_dots_no_trailing_dot (s t : string) : rstrip_dots s <> t ++ ".".
Proof.
  revert t. induction s as [|c s IH]; intros t; simpl.
  - intros H. symmetry in H. now apply append_dot_not_empty in H.
  - destruct (rstrip_dots s) as [|c' r] eqn:Hr.
    + destruct (Ascii.eqb_spec c ".") as [->|Hc].
      * intros H. symmetry in H. now apply append_dot_not_empty in H.
      * destruct t as [|a t]; rewrite ?append_nil_l, ?append_String_l;
          [congruence|].
        intros [= _ H]. symmetry in H. now apply append_dot_not_empty in H.
    + destruct t as [|a t]; rewrite ?append_nil_l, ?append_String_l;
        [discriminate|].
      intros [= _ H]. exact (IH t H).
Qed.

Lemma rstrip_dots_app_dots (s : string) (n : nat) :
  rstrip_dots (s ++ dots n) = rstrip_dots s.
Proof.
  induction s as [|c s IH]; simpl; [apply rstrip_dots_of_dots|].
  now rewrite IH.
Qed.

Lemma rstrip_dots_idempotent (s : string) :
  rstrip_dots (rstrip_dots s) = rstrip_dots s.
Proof.
  induction s as [|c s IH]; simpl; [reflexivity|].
  destruct (rstrip_dots s) as [|c' r] eqn:Hr.
  - destruct (Ascii.eqb_spec c ".") as [->|Hc]; simpl; [reflexivity|].
    destruct (Ascii.eqb_spec c "."); [contradiction|reflexivity].
  - change (rstrip_dots (String c (String c' r)))
      with (match rstrip_dots (String c' r) with
            | EmptyString => if Ascii.eqb c "." then EmptyString else String c EmptyString
            | String a b => String c (String a b)
            end).
    now rewrite IH.
Qed.

(** [rstrip(".")] removes exactly the dots at the end: the name is the
    result followed by dots only, the result does not end with a dot,
    and dots added at the end, or a second pass, change nothing. *)
Theorem rstrip_dots_spec (s : string) :
  (exists n, s = rstrip_dots s ++ dots n) /\
  (forall t, rstrip_dots s <> t ++ ".") /\
  (forall n, rstrip_dots (s ++ dots n) = rstrip_dots s) /\
  rstrip_dots (rstrip_dots s) = rstrip_dots s.
Proof.
  split; [apply rstrip_dots_split|].
  split; [apply rstrip_dots_no_trailing_dot|].
  split; [intros n; apply rstrip_dots_app_dots|apply rstrip_dots_idempotent].
Qed.

Lemma prefix_spec (p s : string) :
  String.prefix p s = true <-> exists post, s = p ++ post.
Proof.
  revert p. induction s as [|b s IH]; intros [|a p]; simpl.
  - split; [intros _; now exists ""|reflexivity].
  - split; [discriminate|].
    intros [post H]. rewrite append_String_l in H. discriminate.
  - split; [intros _; now exists (String b s)|reflexivity].
  - destruct (ascii_dec a b) as [->|Hab].
    + rewrite IH. split; intros [post H]; exists post;
        rewrite append_String_l in *; congruence.
    + split; [discriminate|].
      intros [post H]. rewrite append_String_l in H. congruence.
Qed.

Lemma contains_unfold (sub s : string) :
  contains sub s
  = String.prefix sub s ||
    match s with
    | EmptyString => false
    | String _ s' => contains sub s'
    end.
Proof. now destruct s. Qed.

(** [sub in s]: [s] is some text, then [sub], then some text. *)
Lemma contains_spec (sub s : string) :
  contains sub s = true <-> exists pre post, s = pre ++ sub ++ post.
Proof.
  split.
  - induction s as [|c s IH]; rewrite contains_unfold, orb_true_iff.
    + intros [H|[=]]. apply prefix_spec in H. destruct H as [post H].
      now exists "", post.
    + intros [H|H].
      * apply prefix_spec in H. destruct H as [post H]. now exists "", post.
      * destruct (IH H) as (pre & post & ->). now exists (String c pre), post.
  - intros (pre & post & ->). induction pre as [|c pre IH];
      rewrite contains_unfold, orb_true_iff.
    + left. rewrite append_nil_l. apply prefix_spec. now exists post.
    + right. rewrite append_String_l. exact IH.
Qed.

(** X14: a thread is started for a query only ([qr] is 0), for a name that
    still has a dot once the dots at its end are removed, and never for
    an empty domain: its argument is the registered domain of that name. *)
Theorem process_packet_started (registered_domain : string -> string)
    (p : packet) (d : string) :
  process_packet registered_domain p = Some d ->
  d <> "" /\
  dns_qr p = Some 0%Z /\
  exists qname,
    dnsqr_qname p = Some qname /\
    d = registered_domain (rstrip_dots qname) /\
    exists pre post, rstrip_dots qname = pre ++ "." ++ post.
Proof.
  unfold process_packet.
  destruct (dns_qr p) as [qr|]; [|discriminate].
  destruct (dnsqr_qname p) as [qname|]; [|discriminate].
  destruct (Z.eqb_spec qr 0) as [->|]; [|discriminate].
  destruct (String.eqb_spec (rstrip_dots qname) "") as [|Hne]; simpl; [discriminate|].
  destruct (contains "." (rstrip_dots qname)) eqn:Hdot; [|discriminate].
  destruct (String.eqb_spec (registered_domain (rstrip_dots qname)) "") as [|Hd];
    simpl; [discriminate|].
  intros [= <-]. split; [exact Hd|]. split; [reflexivity|].
  exists qname. split; [reflexivity|]. split; [reflexivity|].
  now apply contains_spec.
Qed.

(** X15: dots at the end of the queried name make no difference to what
    [process_packet] does. *)
Theorem process_packet_trailing_dots (registered_domain : string -> string)
    (qr : option Z) (qname : string) (n : nat) :
  process_packet registered_domain
    {| dns_qr := qr; dnsqr_qname := Some (qname ++ dots n) |}
  = process_packet registered_domain
      {| dns_qr := qr; dnsqr_qname := Some qname |}.
Proof.
  unfold process_packet. simpl. now rewrite rstrip_dots_app_dots.
Qed.

(** X16: a name with a single label, with or without dots at its end, starts
    no thread, whatever the registered-domain lookup would say. *)
Theorem process_packet_single_label (registered_domain : string -> string)
    (qr : option Z) (label : string) (n : nat) :
  contains "." label = false ->
  process_packet registered_domain
    {| dns_qr := qr; dnsqr_qname := Some (label ++ dots n) |} = None.
Proof.
  intros Hlabel. rewrite process_packet_trailing_dots.
  unfold process_packet. simpl. destruct qr as [qr|]; [|reflexivity].
  destruct (Z.eqb qr 0); [|reflexivity].
  destruct (contains "." (rstrip_dots label)) eqn:Hc;
    [|now rewrite andb_false_r].
  apply contains_spec in Hc. destruct Hc as (pre & post & Hc).
  destruct (rstrip_dots_split label) as [m Hm].
  assert (Hin : contains "." label = true).
  { apply contains_spec. exists pre, (post ++ dots m).
    rewrite Hm at 1. rewrite Hc.
    now rewrite !append_assoc. }
  congruence.
Qed.

Section Packets.
Variable E : env.
Variable registered_domain : string -> string.

(** X17: packets never leave a record under the empty domain. *)
Theorem run_packets_no_empty_domain (packets : list (Q * packet)) :
  lookup_site "" (visited_sites (run_packets E registered_domain packets initial_world))
  = None.
Proof.
  assert (H : forall w, lookup_site "" (visited_sites w) = None ->
              lookup_site "" (visited_sites (run_packets E registered_domain packets w))
              = None).
  { induction packets as [|[now p] packets IH]; intros w Hw; simpl; [exact Hw|].
    apply IH.
    destruct (process_packet registered_domain p) as [d|] eqn:Hp; [|exact Hw].
    apply process_packet_started in Hp. destruct Hp as [Hd _].
    rewrite lookup_other_after_log_visit; [exact Hw|exact Hd]. }
  now apply H.
Qed.
End Packets.

(** ** The search box *)

Lemma filtered_sites_In (str_lower : string -> string) (term : string)
    (live : bool) (sorted : list item) (it : item) :
  In it (filtered_sites str_lower term live sorted) <->
  In it sorted /\ kept str_lower term live it = true.
Proof. unfold filtered_sites. apply List.filter_In. Qed.

(** X18: the rows shown are rows of the sorted list, in the same order; a
    row is shown when the live filter is off, when the search box is
    empty, or when the search term occurs in the domain as [str.lower]
    gives it. *)
Theorem filtered_sites_spec (str_lower : string -> string) (term : string)
    (live : bool) (sorted : list item) :
  sublist (filtered_sites str_lower term live sorted) sorted /\
  forall it : item,
    In it (filtered_sites str_lower term live sorted) <->
    In it sorted /\
    (live = false \/ term = "" \/
     exists pre post, str_lower (fst it) = pre ++ term ++ post).
Proof.
  split.
  - unfold filtered_sites. induction sorted as [|x l IH]; simpl; [constructor|].
    destruct (kept str_lower term live x); now constructor.
  - intros it. rewrite filtered_sites_In. unfold kept.
    rewrite negb_true_iff, !andb_false_iff, !negb_false_iff.
    rewrite String.eqb_eq, contains_spec. tauto.
Qed.

(** ** Instances *)

Lemma get_ip_write_once_witness :
  ip_cache world_after_get_ip !! "example.com" = Some "93.184.216.34" /\
  ip_cache initial_world ⊆ ip_cache world_after_get_ip /\
  get_ip (env_no_key 200) "example.com" world_after_get_ip
  = (Ok "93.184.216.34", world_after_get_ip).
Proof.
  apply (get_ip_write_once (env_no_key 200) "example.com" "93.184.216.34"
           initial_world world_after_get_ip).
  vm_compute. reflexivity.
Defined.

Lemma get_whois_org_never_empty_witness :
  fst (get_whois_org env_whois_fails "example.com" initial_world) = Ok WHOIS_ERROR.
Proof.
  refine (proj2 (proj2 (get_whois_org_never_empty env_whois_fails "example.com"
                          initial_world _)) _).
  - reflexivity.
  - left. exists (other_exception "PywhoisError"). reflexivity.
Defined.

Lemma check_safety_repeatable_witness :
  check_safety (env_no_key 200) "example.com" world_after_check_safety
  = (Ok SAFE, world_after_check_safety).
Proof.
  refine (proj1 (check_safety_repeatable (env_no_key 200) "example.com" SAFE
                   initial_world world_after_check_safety _)).
  vm_compute. reflexivity.
Defined.

Lemma check_safety_safe_iff_witness :
  fst (check_safety (env_no_key 200) "example.com" initial_world) = Ok SAFE <->
  status_code {| status_code := 200; json_matches := Ok None |} = 200%Z /\
  exists m, json_matches {| status_code := 200; json_matches := Ok None |} = Ok m /\
            matches_truthy m = false.
Proof.
  apply (check_safety_safe_iff (env_no_key 200) "example.com"
           {| status_code := 200; json_matches := Ok None |} initial_world);
    [discriminate | reflexivity | reflexivity].
Defined.

Lemma run_enrichment_kept_witness :
  enrichment (site_or_default "example.com"
                (visited_sites (run (env_no_key 403) [(200%Q, "example.com")]
                                  world_seen_at_100)))
  = enrichment (site_or_default "example.com" (visited_sites world_seen_at_100)).
Proof.
  apply (run_enrichment_kept (env_no_key 403) [(200%Q, "example.com")]
           "example.com" world_seen_at_100).
  vm_compute. discriminate.
Defined.

Lemma process_packet_started_witness :
  "example.com" <> "" /\
  dns_qr query_packet = Some 0%Z /\
  exists qname,
    dnsqr_qname query_packet = Some qname /\
    "example.com" = (fun _ : string => "example.com") (rstrip_dots qname) /\
    exists pre post, rstrip_dots qname = pre ++ "." ++ post.
Proof.
  apply (process_packet_started (fun _ => "example.com") query_packet "example.com").
  reflexivity.
Defined.

Lemma process_packet_single_label_witness :
  process_packet (fun s => s)
    {| dns_qr := Some 0%Z; dnsqr_qname := Some ("localhost" ++ dots 1) |} = None.
Proof.
  apply (process_packet_single_label (fun s => s) (Some 0%Z) "localhost" 1).
  reflexivity.
Defined.
